(** * Smart Routes backend: the route planning engine

    A shallow embedding of [server/routers.ts] (the [calculateRoute] and
    [saveRoute] mutations) and of the route persistence functions of
    [server/db.ts], with the properties of the route planning engine
    stated and proved over it.  The second part of the development
    covers the reading of the savings of a route, the accounts (the
    [auth] router with [upsertUser], [getUserByEmail], [getUserById],
    the password and token functions) and [decodePolyline].

    JavaScript numbers are IEEE 754 binary64 values: they are modelled by
    Rocq's primitive floats, whose operations are the same correctly
    rounded operations.  The [Set<number>] of visited indices is a
    [gset nat]; arrays are lists. *)

From Stdlib Require Import Floats ZArith Lia String List Permutation.
From Stdlib Require Uint63 Ascii.
From stdpp Require Import base gmap sets list.
Import ListNotations.

Set Warnings "-inexact-float".

Local Open Scope string_scope.
Local Open Scope list_scope.

(** ** JavaScript values and control *)

Module JS.

(** The two kinds of exception the modelled code raises or lets
    through: [new Error(msg)] and the [TypeError] of a property access
    on [null] or [undefined]. *)
Inductive Exception : Type :=
| Error (message : string)
| TypeError (message : string).

(** Result of running a piece of code that may throw, or whose [while]
    loop may still be running when the fuel of the model is used up. *)
Inductive Outcome (A : Type) : Type :=
| Returns (a : A)
| Throws (e : Exception)
| OutOfFuel.
Arguments Returns {A} a.
Arguments Throws {A} e.
Arguments OutOfFuel {A}.

(** [x || 0] on a number that may be absent: [undefined], [0], [-0] and
    [NaN] are falsy. *)
Definition orZero (x : option float) : float :=
  match x with
  | None => 0%float
  | Some v => if (PrimFloat.eqb v 0 || PrimFloat.is_nan v)%bool then 0%float else v
  end.

(** [Math.PI] *)
Definition PI : float := 3.141592653589793%float.

(** The library functions of the JavaScript runtime that the route
    computation calls and that have no counterpart among the primitive
    float operations. *)
Class Runtime : Type := {
  Math_sin : float -> float;
  Math_cos : float -> float;
  Math_atan2 : float -> float -> float;
  Math_round : float -> float;
  toFixed : float -> nat -> string;
  toString : float -> string;
  JSON_stringify_numbers : list float -> string;
  JSON_stringify_points : list (list float) -> string
}.

End JS.
Import JS.

(** ** Route computation: [calculateRoute] *)

(** A point of the route: [{ lat, lng, name }]. *)
Record Waypoint : Type := {
  lat : float;
  lng : float;
  name : string
}.

(** An element of [input.containers] that is an object.  [latitude] and
    [longitude] hold the numbers [parseFloat(String(c.latitude))] and
    [parseFloat(String(c.longitude))], which may be [NaN] or infinite. *)
Record Container : Type := {
  latitude : float;
  longitude : float;
  cname : string
}.

(** Codeca (Garage) coordinates - Ponto Zero *)
Definition CODECA : Waypoint :=
  {| lat := (-29.1750)%float; lng := (-51.1850)%float; name := "Codeca (Garagem)" |}.

(** The object built by the callback of [containers.map(...)]. *)
Definition waypointOf (c : Container) : Waypoint :=
  {| lat := latitude c; lng := longitude c; name := cname c |}.

(** The body of [containers.map(...)]: [input.containers] is an array of
    [any]; [None] stands for an element that is [null] or [undefined],
    on which [c.latitude] throws. *)
Fixpoint mapWaypoints (containers : list (option Container)) : Outcome (list Waypoint) :=
  match containers with
  | [] => Returns []
  | None :: _ => Throws (TypeError "Cannot read properties of null (reading 'latitude')")
  | Some c :: rest =>
      match mapWaypoints rest with
      | Returns ws => Returns (waypointOf c :: ws)
      | Throws e => Throws e
      | OutOfFuel => OutOfFuel
      end
  end.

(** [Math.sqrt(dx * dx + dy * dy)] with [dx], [dy] the differences of
    latitude and of longitude between waypoint [w] and [current]. *)
Definition planarDistance (current w : Waypoint) : float :=
  let dx := (lat w - lat current)%float in
  let dy := (lng w - lng current)%float in
  PrimFloat.sqrt (dx * dx + dy * dy)%float.

(** The variables [nearest] and [minDistance] of the inner [for] loop;
    [nearest = None] is the initial [-1]. *)
Record Scan : Type := {
  nearest : option nat;
  minDistance : float
}.

Definition scanInit : Scan := {| nearest := None; minDistance := infinity |}.

(** One iteration of the inner [for] loop, at index [i]. *)
Definition scanStep (waypoints : list Waypoint) (visited : gset nat)
    (current : Waypoint) (st : Scan) (i : nat) : Scan :=
  if decide (i ∈ visited) then st
  else match waypoints !! i with
       | None => st
       | Some w =>
           let distance := planarDistance current w in
           if (distance <? minDistance st)%float
           then {| nearest := Some i; minDistance := distance |}
           else st
       end.

(** The inner [for] loop: [for (let i = 0; i < waypoints.length; i++)]. *)
Definition findNearest (waypoints : list Waypoint) (visited : gset nat)
    (current : Waypoint) : Scan :=
  fold_left (scanStep waypoints visited current) (seq 0 (length waypoints)) scanInit.

(** The variables [optimizedRoute] and [visited] of the [while] loop. *)
Record Tour : Type := {
  optimizedRoute : list Waypoint;
  visited : gset nat
}.

Definition tourInit : Tour := {| optimizedRoute := [CODECA]; visited := ∅ |}.

(** [optimizedRoute[optimizedRoute.length - 1]]; the route always holds
    the depot, so the default is never used. *)
Definition current (t : Tour) : Waypoint := List.last (optimizedRoute t) CODECA.

(** The body of the [while] loop. *)
Definition whileBody (waypoints : list Waypoint) (t : Tour) : Tour :=
  match nearest (findNearest waypoints (visited t) (current t)) with
  | None => t
  | Some k =>
      match waypoints !! k with
      | None => t
      | Some w => {| optimizedRoute := optimizedRoute t ++ [w];
                     visited := {[k]} ∪ visited t |}
      end
  end.

(** [while (visited.size < waypoints.length) { ... }]: every iteration
    uses one unit of fuel; [None] when the loop is still running with no
    fuel left. *)
Fixpoint whileLoop (fuel : nat) (waypoints : list Waypoint) (t : Tour) : option Tour :=
  if decide (size (visited t) < length waypoints) then
    match fuel with
    | O => None
    | S fuel' => whileLoop fuel' waypoints (whileBody waypoints t)
    end
  else Some t.

(** The sequencing step: the loop from the depot, then
    [optimizedRoute.push(CODECA)]. *)
Definition sequence (fuel : nat) (waypoints : list Waypoint) : option (list Waypoint) :=
  match whileLoop fuel waypoints tourInit with
  | None => None
  | Some t => Some (optimizedRoute t ++ [CODECA])
  end.

(** *** The routing provider (OSRM) *)

(** A [[lng, lat]] pair of the polyline. *)
Definition LngLat : Type := (float * float)%type.

Module Osrm.

(** [route.geometry]: [type] and [coordinates] may be absent.  An
    empty [coordinates] array is an object, hence truthy. *)
Record Geometry : Type := {
  type : option string;
  coordinates : option (list LngLat)
}.

(** An element of [data.routes]. *)
Record Route : Type := {
  geometry : option Geometry;
  distance : option float;
  duration : option float
}.

(** The body of the response, [data = await response.json()];
    [routes = None] when the field is absent or [null]. *)
Record Data : Type := {
  code : option string;
  routes : option (list Route)
}.

(** What [fetch] followed by [response.json()] does inside the [try]
    block: it throws (network failure, a body that is not JSON, a body
    that is [null]), or it yields the decoded body. *)
Inductive Fetch : Type :=
| Fails (e : Exception)
| Responds (data : Data).

(** The provider: the answer to the request of leg [i] from the
    origin to the destination, both as [(lng, lat)]. *)
Definition Provider : Type := nat -> LngLat -> LngLat -> Fetch.

(** [data.code === 'Ok'] *)
Definition codeIsOk (data : Data) : bool :=
  match code data with
  | Some c => String.eqb c "Ok"
  | None => false
  end.

(** [data.routes && data.routes[0]] *)
Definition firstRoute (data : Data) : option Route :=
  match routes data with
  | Some (r :: _) => Some r
  | _ => None
  end.

(** [geometry.type === 'LineString'] *)
Definition isLineString (g : Geometry) : bool :=
  match type g with
  | Some t => String.eqb t "LineString"
  | None => false
  end.

End Osrm.

(** The variables [allPolylinePoints], [totalDistance] and
    [totalDuration] of the loop over the legs. *)
Record Totals : Type := {
  allPolylinePoints : list LngLat;
  totalDistance : float;
  totalDuration : float
}.

Definition totalsInit : Totals :=
  {| allPolylinePoints := []; totalDistance := 0%float; totalDuration := 0%float |}.

(** The object returned by [calculateRoute]. *)
Module Result.
Record t : Type := {
  polylinePoints : list LngLat;
  distance : string;
  duration : string;
  totalDistance : float;
  totalDuration : float
}.
End Result.

Section Engine.

Context {runtime : Runtime}.

Local Open Scope float_scope.

(** "Estimate distance using Haversine formula": the value of
    [distance] in the [else] branch and in the [catch] block, which
    hold the same statements. *)
Definition haversine (originLat originLng destLat destLng : float) : float :=
  let R := 6371 in
  let dLat := (destLat - originLat) * PI / 180 in
  let dLng := (destLng - originLng) * PI / 180 in
  let a := Math_sin (dLat / 2) * Math_sin (dLat / 2) +
           Math_cos (originLat * PI / 180) * Math_cos (destLat * PI / 180) *
           Math_sin (dLng / 2) * Math_sin (dLng / 2) in
  let c := 2 * Math_atan2 (PrimFloat.sqrt a) (PrimFloat.sqrt (1 - a)) in
  R * c.

(** "Fallback: add straight line": the statements of the [else]
    branch and of the [catch] block. *)
Definition fallbackLeg (acc : Totals) (origin dest : Waypoint) : Totals :=
  let distance := haversine (lat origin) (lng origin) (lat dest) (lng dest) in
  {| allPolylinePoints :=
       (allPolylinePoints acc ++ [(lng origin, lat origin)]) ++ [(lng dest, lat dest)];
     totalDistance := totalDistance acc + distance;
     totalDuration := totalDuration acc + distance / 40 |}.

(** The statements under
    [if (geometry && geometry.type === 'LineString' && geometry.coordinates)]. *)
Definition providerLeg (acc : Totals) (route : Osrm.Route) (coords : list LngLat) : Totals :=
  let segmentDistance := orZero (Osrm.distance route) / 1000 in
  let segmentDuration := orZero (Osrm.duration route) / 60 in
  {| allPolylinePoints := allPolylinePoints acc ++ coords;
     totalDistance := totalDistance acc + segmentDistance;
     totalDuration := totalDuration acc + segmentDuration |}.

(** The [try] block once the response is decoded. *)
Definition onResponse (acc : Totals) (origin dest : Waypoint) (data : Osrm.Data) : Totals :=
  match Osrm.codeIsOk data, Osrm.firstRoute data with
  | true, Some route =>
      match Osrm.geometry route with
      | Some g =>
          match Osrm.isLineString g, Osrm.coordinates g with
          | true, Some coords => providerLeg acc route coords
          | _, _ => acc
          end
      | None => acc
      end
  | _, _ => fallbackLeg acc origin dest
  end.

(** The [try] statement of a leg: the [catch] block runs the fallback
    when the request or the decoding of its answer throws. *)
Definition onFetch (acc : Totals) (origin dest : Waypoint) (f : Osrm.Fetch) : Totals :=
  match f with
  | Osrm.Fails _ => fallbackLeg acc origin dest
  | Osrm.Responds data => onResponse acc origin dest data
  end.

(** The body of [for (let i = 0; i < optimizedRoute.length - 1; i++)].
    Both indices are in range inside the loop, so the default of [nth]
    is never used. *)
Definition legBody (provider : Osrm.Provider) (route : list Waypoint)
    (acc : Totals) (i : nat) : Totals :=
  let origin := nth i route CODECA in
  let dest := nth (i + 1) route CODECA in
  onFetch acc origin dest (provider i (lng origin, lat origin) (lng dest, lat dest)).

(** The loop over the legs. *)
Definition legLoop (provider : Osrm.Provider) (route : list Waypoint) : Totals :=
  fold_left (legBody provider route) (seq 0 (length route - 1)) totalsInit.

(** "Ensure we have valid values", and the returned object. *)
Definition finish (route : list Waypoint) (acc : Totals) : Result.t :=
  let finalDistance := if 0 <? totalDistance acc then totalDistance acc else 0.1 in
  let finalDuration := if 0 <? totalDuration acc then totalDuration acc else 1 in
  {| Result.polylinePoints :=
       if Nat.ltb 0 (length (allPolylinePoints acc)) then allPolylinePoints acc
       else map (fun p => (lng p, lat p)) route;
     Result.distance := (toFixed finalDistance 2 ++ " km")%string;
     Result.duration := (toString (Math_round finalDuration) ++ " min")%string;
     Result.totalDistance := finalDistance;
     Result.totalDuration := finalDuration |}.

(** The mutation [containers.calculateRoute].  The outer [catch] logs
    and throws the same exception again. *)
Definition calculateRoute (fuel : nat) (provider : Osrm.Provider)
    (containers : list (option Container)) : Outcome Result.t :=
  if Nat.eqb (length containers) 0 then Throws (Error "No containers provided")
  else
    match mapWaypoints containers with
    | Throws e => Throws e
    | OutOfFuel => OutOfFuel
    | Returns waypoints =>
        match sequence fuel waypoints with
        | None => OutOfFuel
        | Some route => Returns (finish route (legLoop provider route))
        end
    end.

End Engine.

(** ** Route persistence: [server/db.ts] *)

Module Db.

(** [InsertRouteHistory]: the columns of [routeHistory] that the caller
    gives; [id] is generated. *)
Record InsertRouteHistory : Type := {
  totalDistance : float;
  totalDuration : float;
  containersCount : float;
  containerIds : string;
  polylinePoints : string;
  status : string
}.

(** [InsertRouteSavings] *)
Record InsertRouteSavings : Type := {
  routeId : nat;
  fuelSaved : float;
  co2Saved : float;
  costSaved : float;
  timeSaved : float;
  efficiencyGain : float
}.

(** A row of [routeHistory] and a row of [routeSavings], each with its
    [int AUTO_INCREMENT] primary key. *)
Record RouteHistory : Type := {
  id : nat;
  route : InsertRouteHistory
}.

Record RouteSavings : Type := {
  savingsId : nat;
  savings : InsertRouteSavings
}.

(** The statements that the functions below send to the database. *)
Inductive Statement : Type :=
| InsertIntoRouteHistory
| SelectFromRouteHistory
| InsertIntoRouteSavings.

(** The world the functions run in: whether [getDb] yields a handle
    ([DATABASE_URL] is set), the two tables with their next generated
    keys, the statements sent so far (latest first), and for each of
    the next statements whether the driver throws on it ([true]); past
    the end of that list no statement fails. *)
Record World : Type := {
  hasDatabase : bool;
  routeHistory : list RouteHistory;
  routeHistoryNextId : nat;
  routeSavings : list RouteSavings;
  routeSavingsNextId : nat;
  sent : list Statement;
  faults : list bool
}.

(** Computations over the world that may throw. *)
Definition M (A : Type) : Type := World -> Outcome A * World.

Definition ret {A : Type} (a : A) : M A := fun w => (Returns a, w).

Definition throw {A : Type} (e : Exception) : M A := fun w => (Throws e, w).

Definition bind {A B : Type} (m : M A) (k : A -> M B) : M B :=
  fun w =>
    match m w with
    | (Returns a, w') => k a w'
    | (Throws e, w') => (Throws e, w')
    | (OutOfFuel, w') => (OutOfFuel, w')
    end.

Declare Scope db_scope.
Delimit Scope db_scope with db.
Notation "'let*' x ':=' m 'in' k" := (bind m (fun x => k))
  (at level 10, x name, m at level 100, k at level 200) : db_scope.
Local Open Scope db_scope.

(** [getDb()]: the handle, or [null]. *)
Definition getDb : M bool := fun w => (Returns (hasDatabase w), w).

(** Sending a statement: it is recorded, and the driver throws when
    the next fault says so. *)
Definition send (s : Statement) : M unit :=
  fun w =>
    let w' := {| hasDatabase := hasDatabase w;
                 routeHistory := routeHistory w;
                 routeHistoryNextId := routeHistoryNextId w;
                 routeSavings := routeSavings w;
                 routeSavingsNextId := routeSavingsNextId w;
                 sent := s :: sent w;
                 faults := tl (faults w) |} in
    match faults w with
    | true :: _ => (Throws (Error "query failed"), w')
    | _ => (Returns tt, w')
    end.

(** [db.insert(routeHistory).values(route)] *)
Definition insertRouteHistory (r : InsertRouteHistory) : M unit :=
  let* _ := send InsertIntoRouteHistory in
  fun w =>
    (Returns tt,
     {| hasDatabase := hasDatabase w;
        routeHistory := routeHistory w ++ [{| id := routeHistoryNextId w; route := r |}];
        routeHistoryNextId := S (routeHistoryNextId w);
        routeSavings := routeSavings w;
        routeSavingsNextId := routeSavingsNextId w;
        sent := sent w;
        faults := faults w |}).

(** [db.insert(routeSavings).values(savings)] *)
Definition insertRouteSavings (s : InsertRouteSavings) : M unit :=
  let* _ := send InsertIntoRouteSavings in
  fun w =>
    (Returns tt,
     {| hasDatabase := hasDatabase w;
        routeHistory := routeHistory w;
        routeHistoryNextId := routeHistoryNextId w;
        routeSavings := routeSavings w ++ [{| savingsId := routeSavingsNextId w; savings := s |}];
        routeSavingsNextId := S (routeSavingsNextId w);
        sent := sent w;
        faults := faults w |}).

(** [ORDER BY id] (ascending, the default of [orderBy]). *)
Fixpoint insertById (r : RouteHistory) (rows : list RouteHistory) : list RouteHistory :=
  match rows with
  | [] => [r]
  | r' :: rest => if Nat.leb (id r) (id r') then r :: r' :: rest else r' :: insertById r rest
  end.

Definition orderById (rows : list RouteHistory) : list RouteHistory :=
  fold_right insertById [] rows.

(** [db.select().from(routeHistory).orderBy(routeHistory.id).limit(1)] *)
Definition selectFirstRouteById : M (list RouteHistory) :=
  let* _ := send SelectFromRouteHistory in
  fun w => (Returns (take 1 (orderById (routeHistory w))), w).

(** The object [{ insertId: routeId }] returned by [saveRoute];
    [insertId = None] is [undefined]. *)
Record InsertResult : Type := {
  insertId : option nat
}.

(** [saveRoute]: [Returns None] is [null].  The [catch] block logs and
    throws the same exception again. *)
Definition saveRoute (r : InsertRouteHistory) : M (option InsertResult) :=
  let* db := getDb in
  if negb db then ret None
  else
    let* _ := insertRouteHistory r in
    let* lastRoute := selectFirstRouteById in
    let routeId := option_map id (head lastRoute) in
    ret (Some {| insertId := routeId |}).

(** [saveRouteSavings]: [Returns false] is [null], [Returns true] is
    the result of the insertion. *)
Definition saveRouteSavings (s : InsertRouteSavings) : M bool :=
  let* db := getDb in
  if negb db then ret false
  else
    let* _ := insertRouteSavings s in
    ret true.

End Db.

(** ** The mutation [containers.saveRoute] *)

(** The input of the mutation, as validated by its schema. *)
Record SaveRouteInput : Type := {
  totalDistance_in : float;
  totalDuration_in : float;
  containersCount_in : float;
  containerIds_in : list float;
  polylinePoints_in : list (list float);
  fuelSaved_in : float;
  co2Saved_in : float;
  costSaved_in : float;
  timeSaved_in : float;
  efficiencyGain_in : float
}.

(** The object returned by the mutation: [{ success: true, routeId }]. *)
Record SaveRouteOutput : Type := {
  success : bool;
  routeId_out : nat
}.

Section SaveRoute.

Context {runtime : Runtime}.

Local Open Scope db_scope.
Import Db.

(** The argument of the call to [saveRoute]. *)
Definition routeRecord (input : SaveRouteInput) : InsertRouteHistory :=
  {| totalDistance := totalDistance_in input;
     totalDuration := Math_round (totalDuration_in input);
     containersCount := containersCount_in input;
     containerIds := JSON_stringify_numbers (containerIds_in input);
     polylinePoints := JSON_stringify_points (polylinePoints_in input);
     status := "completed" |}.

(** The argument of the call to [saveRouteSavings]. *)
Definition savingsRecord (routeId : nat) (input : SaveRouteInput) : InsertRouteSavings :=
  {| Db.routeId := routeId;
     fuelSaved := fuelSaved_in input;
     co2Saved := co2Saved_in input;
     costSaved := costSaved_in input;
     timeSaved := timeSaved_in input;
     efficiencyGain := efficiencyGain_in input |}.

(** [(routeResult as any).insertId ||
     (routeResult as any)[Symbol.for('drizzle.insertId')]]: the object
    built by [saveRoute] has no property under that symbol, so the
    value is the [insertId] when it is truthy (a number other than 0)
    and [undefined] otherwise. *)
Definition extractRouteId (routeResult : InsertResult) : option nat :=
  match insertId routeResult with
  | Some (S n) => Some (S n)
  | _ => None
  end.

(** The mutation.  The [catch] block logs and throws the same
    exception again. *)
Definition saveRouteMutation (input : SaveRouteInput) : M SaveRouteOutput :=
  let* routeResult := saveRoute (routeRecord input) in
  match routeResult with
  | None => throw (Error "Failed to save route")
  | Some res =>
      match extractRouteId res with
      | None => throw (Error "Failed to get route ID from insert result")
      | Some routeId =>
          let* _ := saveRouteSavings (savingsRecord routeId input) in
          ret {| success := true; routeId_out := routeId |}
      end
  end.

End SaveRoute.

(** ** Predicates used in the statements *)

(** [waypoints[k]], for an index in range. *)
Definition pick (waypoints : list Waypoint) (k : nat) : Waypoint := nth k waypoints CODECA.

(** Every planar distance that the sequencing loop can compute, from
    the depot or a waypoint to a waypoint, is below [Infinity]: no
    coordinate is [NaN] or infinite and no square overflows. *)
Definition distancesFinite (waypoints : list Waypoint) : bool :=
  forallb (fun p => forallb (fun q => (planarDistance p q <? infinity)%float) waypoints)
          (CODECA :: waypoints).


(** Index [j] holds waypoint [w] and has not been visited. *)
Definition candidate (waypoints : list Waypoint) (visited : gset nat)
    (j : nat) (w : Waypoint) : Prop :=
  (j ∉ visited) ∧ waypoints !! j = Some w.

(** What the inner loop has established after the indices below [n]. *)
Definition scanInv (waypoints : list Waypoint) (visited : gset nat) (current : Waypoint)
    (n : nat) (st : Scan) : Prop :=
  (∀ j w, j < n → candidate waypoints visited j w →
          (planarDistance current w <? minDistance st)%float = false) ∧
  match nearest st with
  | None => minDistance st = infinity
  | Some k =>
      k < n ∧
      ∃ wk, candidate waypoints visited k wk ∧
            minDistance st = planarDistance current wk ∧
            (planarDistance current wk <? infinity)%float = true ∧
            ∀ j w, j < k → candidate waypoints visited j w →
                   (planarDistance current w <=? planarDistance current wk)%float = false
  end.

(** What the [while] loop maintains: the route is the depot followed by
    the waypoints of the visited indices, in the order of their visit. *)
Definition tourInv (waypoints : list Waypoint) (t : Tour) (order : list nat) : Prop :=
  NoDup order ∧
  Forall (fun k => k < length waypoints) order ∧
  visited t = list_to_set order ∧
  optimizedRoute t = CODECA :: map (pick waypoints) order.

(** The primary call of a leg fails: the request throws, the code of
    the response is not "Ok", or the response has no first route. *)
Definition fetchFailed (f : Osrm.Fetch) : bool :=
  match f with
  | Osrm.Fails _ => true
  | Osrm.Responds data =>
      negb (Osrm.codeIsOk data &&
              match Osrm.firstRoute data with Some _ => true | None => false end)
  end.

(** The primary call of a leg succeeds with this route and these
    coordinates: the code is "Ok" and the geometry of the first route is
    a LineString that has coordinates. *)
Definition fetchSucceeded (f : Osrm.Fetch) : option (Osrm.Route * list LngLat) :=
  match f with
  | Osrm.Fails _ => None
  | Osrm.Responds data =>
      if Osrm.codeIsOk data then
        match Osrm.firstRoute data with
        | Some route =>
            match Osrm.geometry route with
            | Some g =>
                if Osrm.isLineString g
                then option_map (fun coords => (route, coords)) (Osrm.coordinates g)
                else None
            | None => None
            end
        | None => None
        end
      else None
  end.

(** The points of a leg, in the words of the specification: the
    straight line of two points for a fallback leg, the whole geometry
    of the provider for a successful leg. *)
Definition spec_legPolyline (origin dest : Waypoint) (f : Osrm.Fetch) : list LngLat :=
  if fetchFailed f then [(lng origin, lat origin); (lng dest, lat dest)]
  else match fetchSucceeded f with
       | Some (_, coords) => coords
       | None => []
       end.

(** The answer of the provider for leg [i] of a route. *)
Definition legFetch (provider : Osrm.Provider) (route : list Waypoint) (i : nat) : Osrm.Fetch :=
  provider i (lng (nth i route CODECA), lat (nth i route CODECA))
             (lng (nth (i + 1) route CODECA), lat (nth (i + 1) route CODECA)).

(** The number of insertions into [routeSavings] sent to the database,
    whether they succeeded or not. *)
Definition savingsWrites (w : Db.World) : nat :=
  length (List.filter (fun s => match s with Db.InsertIntoRouteSavings => true | _ => false end)
                 (Db.sent w)).

(** The number of insertions into [routeHistory] sent to the database. *)
Definition routeWrites (w : Db.World) : nat :=
  length (List.filter (fun s => match s with Db.InsertIntoRouteHistory => true | _ => false end)
                 (Db.sent w)).

(** The write of the route record yields no identifier: [saveRoute]
    throws, returns [null], or returns an object from which no truthy
    identifier is extracted. *)
Definition yieldsNoId (r : Outcome (option Db.InsertResult)) : bool :=
  match r with
  | Returns None => true
  | Returns (Some res) =>
      match extractRouteId res with
      | None => true
      | Some _ => false
      end
  | Throws _ => true
  | OutOfFuel => false
  end.

(** The least identifier among rows. *)
Definition leastId (rows : list Db.RouteHistory) : option nat :=
  fold_right (fun r acc => Some (match acc with
                                 | None => Db.id r
                                 | Some m => Nat.min (Db.id r) m
                                 end))
             None rows.

(** The tables are in a state that insertions with generated keys
    produce: every key of [routeHistory] is at least 1 and below the
    next generated key. *)
Definition generatedKeys (w : Db.World) : Prop :=
  Forall (fun r => 1 <= Db.id r < Db.routeHistoryNextId w) (Db.routeHistory w).

(** ** Inputs of the examples *)

(** The two containers of the scenario of the specification. *)
Definition container1 : Container :=
  {| latitude := (-29.18)%float; longitude := (-51.19)%float; cname := "1" |}.

Definition container2 : Container :=
  {| latitude := (-29.16)%float; longitude := (-51.17)%float; cname := "2" |}.



(** A response with code "Ok" whose geometry is a point and not a
    LineString. *)
Definition pointGeometryResponse : Osrm.Data :=
  {| Osrm.code := Some "Ok";
     Osrm.routes := Some [ {| Osrm.geometry :=
                                Some {| Osrm.type := Some "Point";
                                        Osrm.coordinates := Some [((-51.19)%float, (-29.18)%float)] |};
                              Osrm.distance := Some 1000%float;
                              Osrm.duration := Some 60%float |} ] |}.

(** A response with code "Ok" for a short leg: a line of two points,
    10 metres and 6 seconds. *)
Definition shortLegResponse : Osrm.Data :=
  {| Osrm.code := Some "Ok";
     Osrm.routes := Some [ {| Osrm.geometry :=
                                Some {| Osrm.type := Some "LineString";
                                        Osrm.coordinates :=
                                          Some [((-51.185)%float, (-29.175)%float);
                                                ((-51.19)%float, (-29.18)%float)] |};
                              Osrm.distance := Some 10%float;
                              Osrm.duration := Some 6%float |} ] |}.

(** A response with code "Ok" and a LineString, without [distance] and
    without [duration]. *)
Definition unmeasuredResponse : Osrm.Data :=
  {| Osrm.code := Some "Ok";
     Osrm.routes := Some [ {| Osrm.geometry :=
                                Some {| Osrm.type := Some "LineString";
                                        Osrm.coordinates :=
                                          Some [((-51.185)%float, (-29.175)%float);
                                                ((-51.19)%float, (-29.18)%float)] |};
                              Osrm.distance := None;
                              Osrm.duration := None |} ] |}.

(** A response whose code is not "Ok". *)
Definition noRouteResponse : Osrm.Data :=
  {| Osrm.code := Some "NoRoute"; Osrm.routes := None |}.

(** A runtime for the closed examples.  The statements that use it hold
    for every runtime; its functions are placeholders and not those of
    a JavaScript engine. *)
Definition exampleRuntime : Runtime :=
  {| Math_sin := fun x => x;
     Math_cos := fun _ => 1%float;
     Math_atan2 := fun y x => (y / x)%float;
     Math_round := fun x => x;
     toFixed := fun _ _ => "";
     toString := fun _ => "";
     JSON_stringify_numbers := fun _ => "";
     JSON_stringify_points := fun _ => "" |}.

(** An input of the mutation [saveRoute]. *)
Definition exampleInput : SaveRouteInput :=
  {| totalDistance_in := 12.5%float;
     totalDuration_in := 31%float;
     containersCount_in := 2%float;
     containerIds_in := [1%float; 2%float];
     polylinePoints_in := [[(-51.185)%float; (-29.175)%float]];
     fuelSaved_in := 1.5%float;
     co2Saved_in := 3.9%float;
     costSaved_in := 9%float;
     timeSaved_in := 12%float;
     efficiencyGain_in := 20%float |}.

(** A world whose database holds one earlier route, of key 1, and its
    savings. *)
Definition earlierRoute : Db.InsertRouteHistory :=
  {| Db.totalDistance := 8%float;
     Db.totalDuration := 20%float;
     Db.containersCount := 1%float;
     Db.containerIds := "[7]";
     Db.polylinePoints := "[]";
     Db.status := "completed" |}.

Definition earlierSavings : Db.InsertRouteSavings :=
  {| Db.routeId := 1;
     Db.fuelSaved := 1%float;
     Db.co2Saved := 2%float;
     Db.costSaved := 3%float;
     Db.timeSaved := 4%float;
     Db.efficiencyGain := 5%float |}.

Definition worldWithOneRoute : Db.World :=
  {| Db.hasDatabase := true;
     Db.routeHistory := [ {| Db.id := 1; Db.route := earlierRoute |} ];
     Db.routeHistoryNextId := 2;
     Db.routeSavings := [ {| Db.savingsId := 1; Db.savings := earlierSavings |} ];
     Db.routeSavingsNextId := 2;
     Db.sent := [];
     Db.faults := [] |}.

(** A world without a database: [DATABASE_URL] is not set. *)
Definition worldWithoutDatabase : Db.World :=
  {| Db.hasDatabase := false;
     Db.routeHistory := [];
     Db.routeHistoryNextId := 1;
     Db.routeSavings := [];
     Db.routeSavingsNextId := 1;
     Db.sent := [];
     Db.faults := [] |}.

(** ** Reading the savings of a route: [getRouteSavingsByRouteId] *)

Module Reports.

Import Db.
Local Open Scope db_scope.

(** [try { ... } catch (error) { ... }] *)
Definition tryCatch {A : Type} (m : M A) (handler : Exception -> M A) : M A :=
  fun w =>
    match m w with
    | (Throws e, w') => handler e w'
    | other => other
    end.

(** Sending a statement that only reads: the driver throws when the
    next fault says so.  [sent] records the three statements of
    [Statement] only, so a read of another kind leaves it as it is. *)
Definition read : M unit :=
  fun w =>
    let w' := {| hasDatabase := hasDatabase w;
                 routeHistory := routeHistory w;
                 routeHistoryNextId := routeHistoryNextId w;
                 routeSavings := routeSavings w;
                 routeSavingsNextId := routeSavingsNextId w;
                 sent := sent w;
                 faults := tl (faults w) |} in
    match faults w with
    | true :: _ => (Throws (Error "query failed"), w')
    | _ => (Returns tt, w')
    end.

(** [db.select().from(routeSavings).where(eq(routeSavings.routeId, routeId)).limit(1)]:
    the rows come in the order of the table. *)
Definition selectSavingsByRouteId (routeId : nat) : M (list RouteSavings) :=
  let* _ := read in
  fun w => (Returns (take 1 (List.filter (fun r => Nat.eqb (Db.routeId (savings r)) routeId)
                                         (routeSavings w))), w).

(** [getRouteSavingsByRouteId]: [Returns None] is [null]. *)
Definition getRouteSavingsByRouteId (routeId : nat) : M (option RouteSavings) :=
  let* db := getDb in
  if negb db then ret None
  else
    tryCatch
      (let* result := selectSavingsByRouteId routeId in
       ret (if Nat.ltb 0 (length result) then head result else None))
      (fun _ => ret None).

End Reports.

(** A world with a database and empty tables. *)
Definition emptyWorld : Db.World :=
  {| Db.hasDatabase := true;
     Db.routeHistory := [];
     Db.routeHistoryNextId := 1;
     Db.routeSavings := [];
     Db.routeSavingsNextId := 1;
     Db.sent := [];
     Db.faults := [] |}.

(** The world of one earlier route, in which the third statement to
    come fails. *)
Definition worldFailingThirdStatement : Db.World :=
  {| Db.hasDatabase := true;
     Db.routeHistory := [ {| Db.id := 1; Db.route := earlierRoute |} ];
     Db.routeHistoryNextId := 2;
     Db.routeSavings := [ {| Db.savingsId := 1; Db.savings := earlierSavings |} ];
     Db.routeSavingsNextId := 2;
     Db.sent := [];
     Db.faults := [false; false; true] |}.

(** Every savings record refers to a route that has been written:
    its [routeId] is below the next generated key of [routeHistory]. *)
Definition savingsReferToRoutes (w : Db.World) : Prop :=
  Forall (fun s => Db.routeId (Db.savings s) < Db.routeHistoryNextId w) (Db.routeSavings w).

(** ** Accounts: [upsertUser], [getUserByEmail], [getUserById] of
    [server/db.ts], [_core/password.ts], [_core/auth.ts] and the [auth]
    router of [server/routers.ts] *)

Module Accounts.

(** The role of a user: the values of the column [role]. *)
Inductive Role : Type := RoleUser | RoleAdmin | RoleCompany.

(** A property of a JavaScript object that may be absent ([undefined]),
    [null], or hold a value. *)
Inductive Field (A : Type) : Type :=
| Undefined
| Null
| Value (a : A).
Arguments Undefined {A}.
Arguments Null {A}.
Arguments Value {A} a.

(** [!x] is false: the property holds a string that is not empty. *)
Definition truthy (f : Field string) : option string :=
  match f with
  | Value s => if String.eqb s "" then None else Some s
  | _ => None
  end.

(** [value ?? null], once [undefined] has been ruled out. *)
Definition nullable {A : Type} (f : Field A) : option A :=
  match f with
  | Value a => Some a
  | _ => None
  end.

(** A row of the table [users], with the columns that the functions
    below write or read; [openId], [createdAt] and [updatedAt] are left
    to the database. *)
Module UserRow.
Record t : Type := {
  id : nat;
  email : option string;
  passwordHash : option string;
  name : option string;
  companyName : option string;
  loginMethod : option string;
  role : Role;
  lastSignedIn : nat
}.
End UserRow.

(** [InsertUser], as far as [upsertUser] reads it.  A date is the
    number that the clock showed. *)
Module Insert.
Record t : Type := {
  email : Field string;
  passwordHash : Field string;
  name : Field string;
  companyName : Field string;
  loginMethod : Field string;
  role : option Role;
  lastSignedIn : option nat
}.
End Insert.

(** The objects [values] and [updateSet] that [upsertUser] builds.  In
    [updateSet] a key is absent ([None]) or holds a value that may be
    [null]. *)
Module Values.
Record t : Type := {
  email : string;
  passwordHash : string;
  name : option (option string);
  companyName : option (option string);
  loginMethod : option (option string);
  role : option Role;
  lastSignedIn : nat
}.
End Values.

Module UpdateSet.
Record t : Type := {
  name : option (option string);
  companyName : option (option string);
  loginMethod : option (option string);
  role : option Role;
  lastSignedIn : option nat
}.

(** [Object.keys(updateSet).length === 0] *)
Definition isEmpty (u : t) : bool :=
  match name u, companyName u, loginMethod u, role u, lastSignedIn u with
  | None, None, None, None, None => true
  | _, _, _, _, _ => false
  end.
End UpdateSet.

(** [JWTPayload] *)
Record JWTPayload : Type := {
  userId : nat;
  payloadEmail : option string;
  payloadRole : Role
}.

(** A call on the response: [res.cookie(name, value, options)] or
    [res.clearCookie(name, options)]. *)
Record CookieOptions : Type := {
  httpOnly : bool;
  secure : bool;
  sameSite : string;
  maxAge : option nat
}.

Inductive CookieCall : Type :=
| SetCookie (cookieName value : string) (options : CookieOptions)
| ClearCookie (cookieName : string) (options : CookieOptions).

(** The libraries and the settings that the functions use: bcrypt
    (hashing draws a salt), jsonwebtoken (signing reads the clock), the
    flag [ENV.isProduction], and the equality of the collation of the
    column [email], by which the database compares and keeps unique the
    values of that column. *)
Class Library : Type := {
  bcrypt_hash : string -> nat -> string -> Exception + string;
  bcrypt_compare : string -> string -> Exception + bool;
  jwt_sign : JWTPayload -> nat -> Exception + string;
  jwt_verify : string -> Exception + JWTPayload;
  isProduction : bool;
  sameEmail : string -> string -> bool
}.

(** The world of a request: whether [getDb] yields a handle, the table
    [users] with its next generated key, for each of the next statements
    whether the driver throws on it, the salts that bcrypt will draw,
    the clock, and the calls made on the response (latest first). *)
Record World : Type := {
  hasDatabase : bool;
  users : list UserRow.t;
  usersNextId : nat;
  faults : list bool;
  salts : list string;
  clock : nat;
  cookies : list CookieCall
}.

Definition M (A : Type) : Type := World -> Outcome A * World.

Definition ret {A : Type} (a : A) : M A := fun w => (Returns a, w).

Definition throw {A : Type} (e : Exception) : M A := fun w => (Throws e, w).

Definition bind {A B : Type} (m : M A) (k : A -> M B) : M B :=
  fun w =>
    match m w with
    | (Returns a, w') => k a w'
    | (Throws e, w') => (Throws e, w')
    | (OutOfFuel, w') => (OutOfFuel, w')
    end.

(** A call of a library that does not touch the world: it throws or
    gives a value. *)
Definition lift {A : Type} (o : Exception + A) : M A :=
  fun w =>
    match o with
    | inl e => (Throws e, w)
    | inr a => (Returns a, w)
    end.

(** [try { ... } catch (error) { ... }] *)
Definition tryCatch {A : Type} (m : M A) (handler : Exception -> M A) : M A :=
  fun w =>
    match m w with
    | (Throws e, w') => handler e w'
    | other => other
    end.

Declare Scope accounts_scope.
Delimit Scope accounts_scope with accounts.
Notation "'let*' x ':=' m 'in' k" := (bind m (fun x => k))
  (at level 10, x name, m at level 100, k at level 200) : accounts_scope.
Local Open Scope accounts_scope.

Definition setUsers (w : World) (rows : list UserRow.t) (next : nat) : World :=
  {| hasDatabase := hasDatabase w;
     users := rows;
     usersNextId := next;
     faults := faults w;
     salts := salts w;
     clock := clock w;
     cookies := cookies w |}.

(** [getDb()] *)
Definition getDb : M bool := fun w => (Returns (hasDatabase w), w).

(** [new Date()] *)
Definition newDate : M nat := fun w => (Returns (clock w), w).

(** The world once a statement has been sent, once a salt has been
    drawn, and once a call has been made on the response. *)
Definition afterStatement (w : World) : World :=
  {| hasDatabase := hasDatabase w;
     users := users w;
     usersNextId := usersNextId w;
     faults := tl (faults w);
     salts := salts w;
     clock := clock w;
     cookies := cookies w |}.

Definition afterSalt (w : World) : World :=
  {| hasDatabase := hasDatabase w;
     users := users w;
     usersNextId := usersNextId w;
     faults := faults w;
     salts := tl (salts w);
     clock := clock w;
     cookies := cookies w |}.

Definition afterCall (c : CookieCall) (w : World) : World :=
  {| hasDatabase := hasDatabase w;
     users := users w;
     usersNextId := usersNextId w;
     faults := faults w;
     salts := salts w;
     clock := clock w;
     cookies := c :: cookies w |}.

(** Sending a statement: the driver throws when the next fault says so. *)
Definition send : M unit :=
  fun w =>
    match faults w with
    | true :: _ => (Throws (Error "query failed"), afterStatement w)
    | _ => (Returns tt, afterStatement w)
    end.

Section WithLibrary.

Context {library : Library}.

(** The row holds an email that the collation takes for [e]. *)
Definition emailMatches (e : string) (r : UserRow.t) : bool :=
  match UserRow.email r with
  | Some x => sameEmail x e
  | None => false
  end.

(** The statements of [upsertUser] that fill [values] and [updateSet],
    for an email and a hash that are truthy and the date [now] of
    [new Date()]. *)
Definition buildValues (email passwordHash : string) (user : Insert.t) (now : nat) : Values.t :=
  {| Values.email := email;
     Values.passwordHash := passwordHash;
     Values.name :=
       match Insert.name user with Undefined => None | f => Some (nullable f) end;
     Values.companyName :=
       match Insert.companyName user with Undefined => None | f => Some (nullable f) end;
     Values.loginMethod :=
       match Insert.loginMethod user with Undefined => None | f => Some (nullable f) end;
     Values.role := Insert.role user;
     Values.lastSignedIn :=
       match Insert.lastSignedIn user with Some d => d | None => now end |}.

Definition buildUpdateSet (user : Insert.t) (now : nat) : UpdateSet.t :=
  let updateSet :=
    {| UpdateSet.name :=
         match Insert.name user with Undefined => None | f => Some (nullable f) end;
       UpdateSet.companyName :=
         match Insert.companyName user with Undefined => None | f => Some (nullable f) end;
       UpdateSet.loginMethod :=
         match Insert.loginMethod user with Undefined => None | f => Some (nullable f) end;
       UpdateSet.role := Insert.role user;
       UpdateSet.lastSignedIn := Insert.lastSignedIn user |} in
  if UpdateSet.isEmpty updateSet
  then {| UpdateSet.name := None; UpdateSet.companyName := None;
          UpdateSet.loginMethod := None; UpdateSet.role := None;
          UpdateSet.lastSignedIn := Some now |}
  else updateSet.

(** The row that the database inserts for [values]: absent columns take
    their defaults, ["jwt"] for [loginMethod] and [user] for [role]. *)
Definition insertedRow (key : nat) (values : Values.t) : UserRow.t :=
  {| UserRow.id := key;
     UserRow.email := Some (Values.email values);
     UserRow.passwordHash := Some (Values.passwordHash values);
     UserRow.name := match Values.name values with Some v => v | None => None end;
     UserRow.companyName := match Values.companyName values with Some v => v | None => None end;
     UserRow.loginMethod := match Values.loginMethod values with Some v => v | None => Some "jwt" end;
     UserRow.role := match Values.role values with Some r => r | None => RoleUser end;
     UserRow.lastSignedIn := Values.lastSignedIn values |}.

(** The row after [ON DUPLICATE KEY UPDATE]: the columns that are keys
    of [updateSet] take its values. *)
Definition updatedRow (updateSet : UpdateSet.t) (r : UserRow.t) : UserRow.t :=
  {| UserRow.id := UserRow.id r;
     UserRow.email := UserRow.email r;
     UserRow.passwordHash := UserRow.passwordHash r;
     UserRow.name := match UpdateSet.name updateSet with Some v => v | None => UserRow.name r end;
     UserRow.companyName :=
       match UpdateSet.companyName updateSet with Some v => v | None => UserRow.companyName r end;
     UserRow.loginMethod :=
       match UpdateSet.loginMethod updateSet with Some v => v | None => UserRow.loginMethod r end;
     UserRow.role := match UpdateSet.role updateSet with Some v => v | None => UserRow.role r end;
     UserRow.lastSignedIn :=
       match UpdateSet.lastSignedIn updateSet with Some v => v | None => UserRow.lastSignedIn r end |}.

(** The first row that holds the email is replaced by its update. *)
Fixpoint updateFirst (e : string) (updateSet : UpdateSet.t) (rows : list UserRow.t) : list UserRow.t :=
  match rows with
  | [] => []
  | r :: rest =>
      if emailMatches e r then updatedRow updateSet r :: rest
      else r :: updateFirst e updateSet rest
  end.

(** [db.insert(users).values(values).onDuplicateKeyUpdate({ set: updateSet })]:
    [email] is the one unique column that [values] fills.  A row that
    holds the email is updated; otherwise a row is inserted under the
    next generated key. *)
Definition insertOnDuplicateKeyUpdate (values : Values.t) (updateSet : UpdateSet.t) : M unit :=
  let* _ := send in
  fun w =>
    if existsb (emailMatches (Values.email values)) (users w)
    then (Returns tt,
          setUsers w (updateFirst (Values.email values) updateSet (users w)) (usersNextId w))
    else (Returns tt,
          setUsers w (users w ++ [insertedRow (usersNextId w) values]) (S (usersNextId w))).

(** [upsertUser].  The [catch] block logs and throws the same exception
    again. *)
Definition upsertUser (user : Insert.t) : M unit :=
  match truthy (Insert.email user), truthy (Insert.passwordHash user) with
  | Some email, Some passwordHash =>
      let* db := getDb in
      if negb db then ret tt
      else
        let* now := newDate in
        insertOnDuplicateKeyUpdate (buildValues email passwordHash user now)
                                   (buildUpdateSet user now)
  | _, _ => throw (Error "User email and passwordHash are required for upsert")
  end.

(** [getUserByEmail]: [Returns None] is [undefined]. *)
Definition getUserByEmail (email : string) : M (option UserRow.t) :=
  let* db := getDb in
  if negb db then ret None
  else
    let* _ := send in
    fun w => (Returns (head (take 1 (List.filter (emailMatches email) (users w)))), w).

(** [getUserById] *)
Definition getUserById (id : nat) : M (option UserRow.t) :=
  let* db := getDb in
  if negb db then ret None
  else
    let* _ := send in
    fun w => (Returns (head (take 1 (List.filter (fun r => Nat.eqb (UserRow.id r) id) (users w)))), w).

(** [SALT_ROUNDS] *)
Definition SALT_ROUNDS : nat := 10.

(** [hashPassword]: bcrypt draws a salt.  The [catch] block logs and
    throws the same exception again. *)
Definition hashPassword (password : string) : M string :=
  fun w => lift (bcrypt_hash password SALT_ROUNDS (hd "" (salts w))) (afterSalt w).

(** [verifyPassword]: [false] when bcrypt throws. *)
Definition verifyPassword (password hash : string) : M bool :=
  tryCatch (lift (bcrypt_compare password hash)) (fun _ => ret false).

(** [JWT_COOKIE_NAME] *)
Definition JWT_COOKIE_NAME : string := "smartoures-jwt".

(** [generateToken] *)
Definition generateToken (payload : JWTPayload) : M string :=
  fun w => lift (jwt_sign payload (clock w)) w.

Definition call (c : CookieCall) : M unit :=
  fun w => (Returns tt, afterCall c w).

(** The call of [setTokenCookie]: 7 days. *)
Definition sessionCookie (token : string) : CookieCall :=
  SetCookie JWT_COOKIE_NAME token
    {| httpOnly := true; secure := isProduction; sameSite := "lax";
       maxAge := Some (7 * 24 * 60 * 60 * 1000) |}.

(** [setTokenCookie] *)
Definition setTokenCookie (token : string) : M unit :=
  call (sessionCookie token).

(** [clearTokenCookie] *)
Definition clearTokenCookie : M unit :=
  call (ClearCookie JWT_COOKIE_NAME
          {| httpOnly := true; secure := isProduction; sameSite := "lax"; maxAge := None |}).

(** [authenticateRequest], given [req.cookies?.[JWT_COOKIE_NAME]]:
    [Returns None] is [null]. *)
Definition authenticateRequest (token : Field string) : M (option UserRow.t) :=
  tryCatch
    (match truthy token with
     | None => ret None
     | Some t =>
         let* payload := lift (jwt_verify t) in
         getUserById (userId payload)
     end)
    (fun _ => ret None).

(** The inputs of [auth.register] and [auth.login], as validated by
    their schemas, and the object [user] of their results. *)
Record RegisterInput : Type := {
  registerEmail : string;
  registerPassword : string;
  registerName : option string;
  registerCompanyName : option string;
  registerRole : Role
}.

Record LoginInput : Type := {
  loginEmail : string;
  loginPassword : string
}.

Record Summary : Type := {
  summaryId : nat;
  summaryEmail : option string;
  summaryName : option string;
  summaryCompanyName : option string;
  summaryRole : Role
}.

Definition summary (user : UserRow.t) : Summary :=
  {| summaryId := UserRow.id user;
     summaryEmail := UserRow.email user;
     summaryName := UserRow.name user;
     summaryCompanyName := UserRow.companyName user;
     summaryRole := UserRow.role user |}.

Definition optional {A : Type} (o : option A) : Field A :=
  match o with
  | Some a => Value a
  | None => Undefined
  end.

(** The end of both mutations: the token, the cookie, the result. *)
Definition openSession (user : UserRow.t) : M Summary :=
  let* token := generateToken {| userId := UserRow.id user;
                                 payloadEmail := UserRow.email user;
                                 payloadRole := UserRow.role user |} in
  let* _ := setTokenCookie token in
  ret (summary user).

(** The mutation [auth.register].  The [catch] block logs and throws
    the same exception again. *)
Definition register (input : RegisterInput) : M Summary :=
  let* existingUser := getUserByEmail (registerEmail input) in
  match existingUser with
  | Some _ => throw (Error "Email already registered")
  | None =>
      let* passwordHash := hashPassword (registerPassword input) in
      let* now := newDate in
      let* _ := upsertUser {| Insert.email := Value (registerEmail input);
                              Insert.passwordHash := Value passwordHash;
                              Insert.name := optional (registerName input);
                              Insert.companyName := optional (registerCompanyName input);
                              Insert.loginMethod := Value "jwt";
                              Insert.role := Some (registerRole input);
                              Insert.lastSignedIn := Some now |} in
      let* user := getUserByEmail (registerEmail input) in
      match user with
      | None => throw (Error "Failed to create user")
      | Some user => openSession user
      end
  end.

(** The mutation [auth.login].  The [catch] block logs and throws the
    same exception again. *)
Definition login (input : LoginInput) : M Summary :=
  let* user := getUserByEmail (loginEmail input) in
  match user with
  | None => throw (Error "Invalid email or password")
  | Some user =>
      match UserRow.passwordHash user with
      | None => throw (Error "Invalid email or password")
      | Some hash =>
          if String.eqb hash "" then throw (Error "Invalid email or password")
          else
            let* isPasswordValid := verifyPassword (loginPassword input) hash in
            if negb isPasswordValid then throw (Error "Invalid email or password")
            else openSession user
      end
  end.

(** The mutation [auth.logout]. *)
Definition logout : M bool :=
  let* _ := clearTokenCookie in
  ret true.

End WithLibrary.

End Accounts.

(** The identifier, the email and the password hash of a user. *)
Definition credentials (r : Accounts.UserRow.t) : nat * option string * option string :=
  (Accounts.UserRow.id r, Accounts.UserRow.email r, Accounts.UserRow.passwordHash r).

(** What [login] rejects: no user for the email, a user without a
    password hash, or a password that bcrypt does not accept (also when
    bcrypt throws). *)
Definition rejected `{Accounts.Library} (password : string)
    (found : option Accounts.UserRow.t) : bool :=
  match found with
  | None => true
  | Some user =>
      match Accounts.UserRow.passwordHash user with
      | None => true
      | Some hash =>
          String.eqb hash "" ||
          match Accounts.bcrypt_compare password hash with
          | inr true => false
          | _ => true
          end
      end
  end.

(** A library for the closed examples: the hash of a password is the
    password after the salt and a dollar sign, and emails are compared
    as they are.  The statements that use it hold for every library. *)
Definition exampleLibrary : Accounts.Library :=
  {| Accounts.bcrypt_hash := fun password _ salt => inr (salt ++ "$" ++ password)%string;
     Accounts.bcrypt_compare := fun password hash => inr (String.eqb hash ("$" ++ password)%string);
     Accounts.jwt_sign := fun payload _ => inr "token";
     Accounts.jwt_verify := fun token =>
       if String.eqb token "token"
       then inr {| Accounts.userId := 1;
                   Accounts.payloadEmail := Some "ana@example.com";
                   Accounts.payloadRole := Accounts.RoleUser |}
       else inl (Error "jwt malformed");
     Accounts.isProduction := false;
     Accounts.sameEmail := String.eqb |}.

Definition ana : Accounts.UserRow.t :=
  {| Accounts.UserRow.id := 1;
     Accounts.UserRow.email := Some "ana@example.com";
     Accounts.UserRow.passwordHash := Some "$secret";
     Accounts.UserRow.name := Some "Ana";
     Accounts.UserRow.companyName := None;
     Accounts.UserRow.loginMethod := Some "jwt";
     Accounts.UserRow.role := Accounts.RoleUser;
     Accounts.UserRow.lastSignedIn := 5 |}.

(** A world with a database that holds no user, one whose database
    holds the user [ana], and one without a database. *)
Definition noAccounts : Accounts.World :=
  {| Accounts.hasDatabase := true;
     Accounts.users := [];
     Accounts.usersNextId := 1;
     Accounts.faults := [];
     Accounts.salts := [];
     Accounts.clock := 9;
     Accounts.cookies := [] |}.

Definition oneAccount : Accounts.World :=
  {| Accounts.hasDatabase := true;
     Accounts.users := [ana];
     Accounts.usersNextId := 2;
     Accounts.faults := [];
     Accounts.salts := [];
     Accounts.clock := 9;
     Accounts.cookies := [] |}.

Definition accountsWithoutDatabase : Accounts.World :=
  {| Accounts.hasDatabase := false;
     Accounts.users := [];
     Accounts.usersNextId := 1;
     Accounts.faults := [];
     Accounts.salts := [];
     Accounts.clock := 9;
     Accounts.cookies := [] |}.

Definition registerAna : Accounts.RegisterInput :=
  {| Accounts.registerEmail := "ana@example.com";
     Accounts.registerPassword := "secret";
     Accounts.registerName := Some "Ana";
     Accounts.registerCompanyName := None;
     Accounts.registerRole := Accounts.RoleUser |}.

Definition loginAnaWrongPassword : Accounts.LoginInput :=
  {| Accounts.loginEmail := "ana@example.com"; Accounts.loginPassword := "guess" |}.

(** ** [decodePolyline] of [server/routers.ts] *)

Module Polyline.

Local Open Scope Z_scope.

(** [ToInt32]: the 32-bit integer, in two's complement, of an integer. *)
Definition toInt32 (z : Z) : Z := (z + 2 ^ 31) mod 2 ^ 32 - 2 ^ 31.

(** [x << shift] on 32-bit integers: the count is taken modulo 32. *)
Definition shiftLeft (x shift : Z) : Z := toInt32 (Z.shiftl x (shift mod 32)).

(** The number that a 32-bit integer is. *)
Definition toNumber (z : Z) : float :=
  if z <? 0 then PrimFloat.opp (PrimFloat.of_uint63 (Uint63.of_Z (- z)))
  else PrimFloat.of_uint63 (Uint63.of_Z z).

(** The loop [do { ... } while (b >= 0x20)], run on the UTF-16 code
    units of [encoded] from [index] on; it gives [result] and the code
    units from the new [index] on.  Past the end of the string
    [charCodeAt] is [NaN]: [(NaN - 63) & 0x1f] is 0 and
    [NaN - 63 >= 0x20] is false, so that the loop ends there with
    [result] as it is. *)
Fixpoint readGroups (rest : list Z) (result shift : Z) : Z * list Z :=
  match rest with
  | [] => (result, [])
  | c :: rest' =>
      let b := c - 63 in
      let result' := Z.lor result (shiftLeft (Z.land b 31) shift) in
      if 32 <=? b then readGroups rest' result' (shift + 5) else (result', rest')
  end.

(** [result & 1 ? ~(result >> 1) : result >> 1] *)
Definition delta (result : Z) : Z :=
  if Z.odd result then Z.lnot (Z.shiftr result 1) else Z.shiftr result 1.

(** The loop [while (index < encoded.length)], on the code units from
    [index] on: every iteration uses one unit of fuel. *)
Fixpoint decodeLoop (fuel : nat) (rest : list Z) (lat lng : float)
    : option (list (float * float)) :=
  match rest with
  | [] => Some []
  | _ :: _ =>
      match fuel with
      | O => None
      | S fuel' =>
          let (result1, rest1) := readGroups rest 0 0 in
          let lat' := (lat + toNumber (delta result1))%float in
          let (result2, rest2) := readGroups rest1 0 0 in
          let lng' := (lng + toNumber (delta result2))%float in
          option_map (cons ((lng' / 1e5)%float, (lat' / 1e5)%float))
                     (decodeLoop fuel' rest2 lat' lng')
      end
  end.

(** [decodePolyline], on the code units of [encoded]. *)
Definition decodePolyline (fuel : nat) (encoded : list Z) : option (list (float * float)) :=
  decodeLoop fuel encoded 0%float 0%float.

(** The code units of a string of one-byte characters. *)
Definition codeUnits (s : string) : list Z :=
  map (fun a => Z.of_nat (Ascii.nat_of_ascii a)) (list_ascii_of_string s).

(** A run of characters that the inner loop reads as one number: up to
    five characters from "_" to "~", which carry on, and a last one
    from "?" to "^", which ends the run. *)
Fixpoint wellFormed (chunk : list Z) : Prop :=
  match chunk with
  | [] => False
  | [c] => 63 <= c <= 94
  | c :: rest => 95 <= c <= 126 ∧ wellFormed rest
  end.

(** The number that the characters of a run stand for: their five low
    bits, after taking 63 off, are its digits in base 32, the first
    character being the lowest digit. *)
Fixpoint chunkValue (chunk : list Z) : Z :=
  match chunk with
  | [] => 0
  | c :: rest => Z.land (c - 63) 31 + 32 * chunkValue rest
  end.

(** The points that a list of pairs of numbers gives, each pair adding
    to the latitude and to the longitude of the point before. *)
Fixpoint pointsFrom (lat lng : float) (deltas : list (Z * Z)) : list (float * float) :=
  match deltas with
  | [] => []
  | (dlat, dlng) :: rest =>
      let lat' := (lat + toNumber dlat)%float in
      let lng' := (lng + toNumber dlng)%float in
      ((lng' / 1e5)%float, (lat' / 1e5)%float) :: pointsFrom lat' lng' rest
  end.

End Polyline.

(** The value of a column after an update by an input that gives the
    field [f]: as it was when the field is undefined, empty when it is
    null. *)
Definition kept {A : Type} (f : Accounts.Field A) (old : option A) : option A :=
  match f with
  | Accounts.Undefined => old
  | Accounts.Null => None
  | Accounts.Value a => Some a
  end.

(** The input gives none of the fields that [upsertUser] updates. *)
Definition nothingGiven (user : Accounts.Insert.t) : bool :=
  match Accounts.Insert.name user, Accounts.Insert.companyName user,
        Accounts.Insert.loginMethod user, Accounts.Insert.role user,
        Accounts.Insert.lastSignedIn user with
  | Accounts.Undefined, Accounts.Undefined, Accounts.Undefined, None, None => true
  | _, _, _, _, _ => false
  end.

(** An input of [upsertUser] for the user [ana]: another name, another
    hash, and nothing else. *)
Definition renameAna : Accounts.Insert.t :=
  {| Accounts.Insert.email := Accounts.Value "ana@example.com";
     Accounts.Insert.passwordHash := Accounts.Value "$other";
     Accounts.Insert.name := Accounts.Value "Ana Maria";
     Accounts.Insert.companyName := Accounts.Undefined;
     Accounts.Insert.loginMethod := Accounts.Undefined;
     Accounts.Insert.role := None;
     Accounts.Insert.lastSignedIn := None |}.

(** * Properties *)

(** ** The order of binary64 numbers *)

Section FloatOrder.

Local Open Scope float_scope.

Local Ltac compare_cases :=
  repeat match goal with
    | |- context [Z.compare ?x ?y] => destruct (Z.compare_spec x y)
    | |- context [Pos.compare_cont Eq ?x ?y] =>
        change (Pos.compare_cont Eq x y) with (Pos.compare x y);
        destruct (Pos.compare_spec x y)
    end;
  simpl; intros; subst; try congruence; try lia.

Local Ltac by_spec_cases a b c :=
  unfold SFltb, SFleb, SFcompare;
  destruct a as [[|]|[|]| |[|] ? ?], b as [[|]|[|]| |[|] ? ?], c as [[|]|[|]| |[|] ? ?];
  simpl; try congruence; compare_cases.

Lemma SFltb_irrefl (a : spec_float) : SFltb a a = false.
Proof.
  unfold SFltb, SFcompare. destruct a as [[|]|[|]| |[|] m e]; simpl; try reflexivity.
  - rewrite Z.compare_refl. change (Pos.compare_cont Eq m m) with (Pos.compare m m).
    now rewrite Pos.compare_refl.
  - rewrite Z.compare_refl. change (Pos.compare_cont Eq m m) with (Pos.compare m m).
    now rewrite Pos.compare_refl.
Qed.

Lemma SFltb_trans (a b c : spec_float) :
  SFltb a b = true -> SFltb b c = true -> SFltb a c = true.
Proof. by_spec_cases a b c. Qed.

Lemma SFleb_ltb_trans (a b c : spec_float) :
  SFleb a b = true -> SFltb b c = true -> SFltb a c = true.
Proof. by_spec_cases a b c. Qed.

Lemma ltb_irrefl (x : float) : (x <? x) = false.
Proof. rewrite ltb_spec. apply SFltb_irrefl. Qed.

Lemma ltb_trans (x y z : float) :
  (x <? y) = true -> (y <? z) = true -> (x <? z) = true.
Proof. rewrite !ltb_spec. apply SFltb_trans. Qed.

Lemma leb_ltb_trans (x y z : float) :
  (x <=? y) = true -> (y <? z) = true -> (x <? z) = true.
Proof. rewrite ltb_spec, leb_spec, ltb_spec. apply SFleb_ltb_trans. Qed.

End FloatOrder.

(** ** The sequencing loop *)

Section Sequencer.

Variable waypoints : list Waypoint.

Local Open Scope float_scope.

Lemma candidate_fun vis j w w' :
  candidate waypoints vis j w -> candidate waypoints vis j w' -> w = w'.
Proof. intros [_ H1] [_ H2]. congruence. Qed.

Lemma scanStep_inv vis cur n st :
  scanInv waypoints vis cur n st ->
  scanInv waypoints vis cur (S n) (scanStep waypoints vis cur st n).
Proof.
  intros [Hmin Hnear]. unfold scanStep.
  assert (Hkeep : (forall w, candidate waypoints vis n w ->
                             (planarDistance cur w <? minDistance st) = false) ->
                  scanInv waypoints vis cur (S n) st).
  { intros Hn. split.
    - intros j w Hj Hc. destruct (decide (j = n)) as [->|Hne]; [now apply Hn|].
      apply (Hmin j w); [lia | exact Hc].
    - destruct (nearest st) as [k|]; [|exact Hnear].
      destruct Hnear as [Hk Hrest]. split; [lia | exact Hrest]. }
  destruct (decide (n ∈ vis)) as [Hin|Hnin].
  { apply Hkeep. intros w [Hc _]. contradiction. }
  destruct (waypoints !! n) as [wn|] eqn:Hlook.
  2:{ apply Hkeep. intros w [_ Hc]. congruence. }
  destruct (planarDistance cur wn <? minDistance st) eqn:Hlt.
  2:{ apply Hkeep. intros w [_ Hc]. congruence. }
  assert (Hcn : candidate waypoints vis n wn) by (split; assumption).
  split; simpl.
  - intros j w Hj Hc. destruct (decide (j = n)) as [->|Hne].
    + rewrite (candidate_fun _ _ _ _ Hc Hcn). apply ltb_irrefl.
    + destruct (planarDistance cur w <? planarDistance cur wn) eqn:Hjn; [|reflexivity].
      rewrite <- (Hmin j w); [|lia|exact Hc].
      symmetry. eapply ltb_trans; eassumption.
  - split; [lia|]. exists wn. repeat split; try assumption.
    + destruct (nearest st) as [k|].
      * destruct Hnear as (_ & wk & _ & Hm & Hfin & _).
        rewrite Hm in Hlt. eapply ltb_trans; eassumption.
      * now rewrite Hnear in Hlt.
    + intros j w Hj Hc.
      destruct (planarDistance cur w <=? planarDistance cur wn) eqn:Hjn; [|reflexivity].
      rewrite <- (Hmin j w); [|lia|exact Hc].
      symmetry. eapply leb_ltb_trans; eassumption.
Qed.

Lemma scan_prefix_inv vis cur n :
  scanInv waypoints vis cur n (fold_left (scanStep waypoints vis cur) (seq 0 n) scanInit).
Proof.
  induction n as [|n IH].
  - split; [intros; lia | reflexivity].
  - rewrite seq_S, fold_left_app. simpl. now apply scanStep_inv.
Qed.

Lemma findNearest_inv vis cur :
  scanInv waypoints vis cur (length waypoints) (findNearest waypoints vis cur).
Proof. apply scan_prefix_inv. Qed.

(** One iteration of the [while] loop: nothing is appended when no
    unvisited waypoint is at a distance below [Infinity]; otherwise the
    appended waypoint is a nearest one, and the first of those. *)
Lemma whileBody_spec (t : Tour) :
  (nearest (findNearest waypoints (visited t) (current t)) = None ∧
   whileBody waypoints t = t ∧
   ∀ j w, candidate waypoints (visited t) j w →
          (planarDistance (current t) w <? infinity) = false)
  ∨
  (∃ k wk,
      nearest (findNearest waypoints (visited t) (current t)) = Some k ∧
      candidate waypoints (visited t) k wk ∧
      whileBody waypoints t =
        {| optimizedRoute := optimizedRoute t ++ [wk]; visited := {[k]} ∪ visited t |} ∧
      (planarDistance (current t) wk <? infinity) = true ∧
      (∀ j w, candidate waypoints (visited t) j w →
              (planarDistance (current t) w <? planarDistance (current t) wk) = false) ∧
      (∀ j w, j < k → candidate waypoints (visited t) j w →
              (planarDistance (current t) w <=? planarDistance (current t) wk) = false)).
Proof.
  pose proof (findNearest_inv (visited t) (current t)) as [Hmin Hnear].
  unfold whileBody.
  destruct (nearest (findNearest waypoints (visited t) (current t))) as [k|] eqn:Hk.
  - right. destruct Hnear as (Hlt & wk & Hc & Hm & Hfin & Hfirst).
    exists k, wk. destruct Hc as [Hnin Hlook]. rewrite Hlook.
    repeat split; try assumption.
    intros j w Hc. rewrite <- Hm. apply (Hmin j w); [|exact Hc].
    destruct Hc as [_ Hc]. now apply lookup_lt_Some in Hc.
  - left. repeat split. intros j w Hc. rewrite <- Hnear. apply (Hmin j w); [|exact Hc].
    destruct Hc as [_ Hc]. now apply lookup_lt_Some in Hc.
Qed.

Lemma unvisited_exists (vis : gset nat) :
  size vis < length waypoints -> ∃ j w, candidate waypoints vis j w.
Proof.
  intros Hsize.
  destruct (decide (Forall (fun j => j ∈ vis) (seq 0 (length waypoints)))) as [Hall|Hsome].
  - exfalso.
    assert (Hsub : list_to_set (seq 0 (length waypoints)) ⊆ vis).
    { intros j Hj. apply elem_of_list_to_set in Hj.
      rewrite Forall_forall in Hall. now apply Hall. }
    apply subseteq_size in Hsub.
    rewrite size_list_to_set in Hsub by apply NoDup_seq.
    rewrite length_seq in Hsub. lia.
  - apply not_Forall_Exists in Hsome; [|intros j; apply _].
    apply Exists_exists in Hsome as (j & Hj & Hnin). simpl in Hnin.
    apply elem_of_seq in Hj.
    destruct (lookup_lt_is_Some_2 waypoints j) as [w Hw]; [lia|].
    exists j, w. split; assumption.
Qed.

Lemma pick_lookup k w : waypoints !! k = Some w -> pick waypoints k = w.
Proof. intros Hk. unfold pick. now apply nth_lookup_Some with (d := CODECA) in Hk. Qed.

Lemma current_visited (t : Tour) (order : list nat) :
  tourInv waypoints t order ->
  current t = CODECA ∨ ∃ i, In i order ∧ waypoints !! i = Some (current t).
Proof.
  intros (_ & Hrange & _ & Hroute). unfold current. rewrite Hroute.
  destruct (exists_last (l := CODECA :: map (pick waypoints) order)) as (l' & a & Heq);
    [discriminate|].
  rewrite Heq, last_last.
  assert (Hin : In a (CODECA :: map (pick waypoints) order)).
  { rewrite Heq. apply in_or_app. right. now left. }
  destruct Hin as [<-|Hin]; [now left|]. right.
  apply in_map_iff in Hin as (k & <- & Hk). exists k. split; [assumption|].
  rewrite Forall_forall in Hrange. apply list_elem_of_In in Hk.
  destruct (lookup_lt_is_Some_2 waypoints k (Hrange _ Hk)) as [w Hw].
  unfold pick. now rewrite (nth_lookup_Some _ _ CODECA _ Hw).
Qed.

Lemma current_in (t : Tour) (order : list nat) :
  tourInv waypoints t order -> In (current t) (CODECA :: waypoints).
Proof.
  intros Hinv. destruct (current_visited t order Hinv) as [->|(i & _ & Hi)]; [now left|].
  right. now apply list_elem_of_In, list_elem_of_lookup_2 with i.
Qed.

Lemma tourInv_init : tourInv waypoints tourInit [].
Proof. repeat split; constructor. Qed.

(** An iteration either leaves the state as it is, or visits a new
    index whose waypoint is at a distance below [Infinity]. *)
Lemma whileBody_inv (t : Tour) (order : list nat) :
  tourInv waypoints t order ->
  ((∀ j w, candidate waypoints (visited t) j w →
           (planarDistance (current t) w <? infinity) = false) ∧
   whileBody waypoints t = t)
  ∨
  (∃ k wk, waypoints !! k = Some wk ∧
           (planarDistance (current t) wk <? infinity) = true ∧
           tourInv waypoints (whileBody waypoints t) (order ++ [k])).
Proof.
  intros (Hnd & Hrange & Hvis & Hroute).
  destruct (whileBody_spec t) as [(_ & Hsame & Hnone)|(k & wk & _ & [Hnin Hlook] & -> & Hlt & _)].
  - left. split; assumption.
  - right. exists k, wk. repeat split; simpl; try assumption.
    + apply NoDup_app. repeat split; [assumption| |apply NoDup_singleton].
      intros x Hx Hx'. apply list_elem_of_singleton in Hx'. subst x.
      apply Hnin. rewrite Hvis. now apply elem_of_list_to_set.
    + apply Forall_app. split; [assumption|]. constructor; [|constructor].
      now apply lookup_lt_Some in Hlook.
    + rewrite Hvis, list_to_set_app_L. simpl.
      rewrite (right_id_L ∅ (∪)). apply (comm_L (∪)).
    + rewrite Hroute, map_app. simpl. now rewrite (pick_lookup k wk Hlook).
Qed.

(** With finite distances, an iteration that starts with an unvisited
    index visits a new one. *)
Lemma whileBody_progress (t : Tour) (order : list nat) :
  distancesFinite waypoints = true ->
  tourInv waypoints t order ->
  size (visited t) < length waypoints ->
  ∃ k, tourInv waypoints (whileBody waypoints t) (order ++ [k]).
Proof.
  intros Hfin Hinv Hsize.
  pose proof (current_in t order Hinv) as Hcur.
  destruct (whileBody_inv t order Hinv) as [[Hnone _]|(k & _ & _ & _ & Hinv')].
  - exfalso. destruct (unvisited_exists _ Hsize) as (j & w & Hc).
    specialize (Hnone j w Hc).
    unfold distancesFinite in Hfin. rewrite forallb_forall in Hfin.
    specialize (Hfin _ Hcur). rewrite forallb_forall in Hfin.
    destruct Hc as [_ Hw]. apply list_elem_of_lookup_2, list_elem_of_In in Hw.
    specialize (Hfin _ Hw). congruence.
  - now exists k.
Qed.

Lemma tourInv_size (t : Tour) (order : list nat) :
  tourInv waypoints t order -> size (visited t) = length order.
Proof. intros (Hnd & _ & -> & _). now apply size_list_to_set. Qed.

Lemma whileLoop_returns (fuel : nat) :
  distancesFinite waypoints = true ->
  ∀ (t : Tour) (order : list nat),
    tourInv waypoints t order ->
    length waypoints - size (visited t) <= fuel ->
    ∃ t' order',
      whileLoop fuel waypoints t = Some t' ∧
      tourInv waypoints t' order' ∧
      length waypoints <= size (visited t').
Proof.
  intros Hfin. induction fuel as [|fuel IH]; intros t order Hinv Hfuel; simpl.
  - destruct (decide (size (visited t) < length waypoints)); [lia|].
    exists t, order. split; [reflexivity|]. split; [assumption|lia].
  - destruct (decide (size (visited t) < length waypoints)) as [Hlt|Hge].
    + destruct (whileBody_progress t order Hfin Hinv Hlt) as [k Hinv'].
      apply (IH _ _ Hinv').
      rewrite (tourInv_size _ _ Hinv'), length_app. simpl.
      rewrite (tourInv_size _ _ Hinv) in Hfuel. lia.
    + exists t, order. split; [reflexivity|]. split; [assumption|lia].
Qed.


(** With finite distances the sequencing step returns, and its tour is
    the depot, the waypoints in the order of a permutation of their
    indices, and the depot. *)
Lemma sequence_returns (fuel : nat) :
  distancesFinite waypoints = true ->
  length waypoints <= fuel ->
  ∃ order,
    Permutation order (seq 0 (length waypoints)) ∧
    sequence fuel waypoints = Some (CODECA :: map (pick waypoints) order ++ [CODECA]).
Proof.
  intros Hfin Hfuel. unfold sequence.
  destruct (whileLoop_returns fuel Hfin tourInit [] tourInv_init)
    as (t & order & -> & Hinv & Hdone); [lia|].
  exists order. rewrite (tourInv_size _ _ Hinv) in Hdone.
  destruct Hinv as (Hnd & Hrange & _ & ->). split; [|reflexivity].
  apply NoDup_Permutation_bis.
  - now apply NoDup_ListNoDup.
  - now rewrite length_seq.
  - intros k Hk. apply in_seq. rewrite Forall_forall in Hrange.
    apply list_elem_of_In in Hk. specialize (Hrange _ Hk). lia.
Qed.




End Sequencer.

Lemma mapWaypoints_objects (containers : list Container) :
  mapWaypoints (map Some containers) = Returns (map waypointOf containers).
Proof.
  induction containers as [|c rest IH]; simpl; [reflexivity|]. now rewrite IH.
Qed.




(** The scenario of the specification: the nearer container 1 is
    visited before container 2, whatever their order in the input. *)
Example sequence_scenario :
  sequence 2 (map waypointOf [container2; container1]) =
    Some [CODECA; waypointOf container1; waypointOf container2; CODECA] ∧
  sequence 2 (map waypointOf [container1; container2]) =
    Some [CODECA; waypointOf container1; waypointOf container2; CODECA].
Proof. split; vm_compute; reflexivity. Qed.


(** ** The legs of the route *)

Section Legs.

Context {runtime : Runtime}.

Local Open Scope float_scope.

Lemma onFetch_failed acc origin dest f :
  fetchFailed f = true -> onFetch acc origin dest f = fallbackLeg acc origin dest.
Proof.
  destruct f as [e|data]; simpl; [reflexivity|]. unfold onResponse.
  destruct (Osrm.codeIsOk data); [|reflexivity].
  destruct (Osrm.firstRoute data); [|reflexivity].
  simpl. discriminate.
Qed.

Lemma onFetch_succeeded acc origin dest f route coords :
  fetchSucceeded f = Some (route, coords) ->
  onFetch acc origin dest f = providerLeg acc route coords.
Proof.
  destruct f as [e|data]; simpl; [discriminate|]. unfold onResponse.
  destruct (Osrm.codeIsOk data); [|discriminate].
  destruct (Osrm.firstRoute data) as [r|]; [|discriminate].
  destruct (Osrm.geometry r) as [g|]; [|discriminate].
  destruct (Osrm.isLineString g); [|discriminate].
  destruct (Osrm.coordinates g) as [cs|]; [|discriminate].
  simpl. intros [= -> ->]. reflexivity.
Qed.

(** A response with code "Ok" and a first route whose geometry is
    absent, is not a LineString or has no coordinates changes nothing:
    neither the provider's values nor the fallback are added. *)
Lemma onFetch_dropped acc origin dest f :
  fetchFailed f = false -> fetchSucceeded f = None ->
  onFetch acc origin dest f = acc.
Proof.
  destruct f as [e|data]; simpl; [discriminate|]. unfold onResponse.
  destruct (Osrm.codeIsOk data); [|discriminate].
  destruct (Osrm.firstRoute data) as [r|]; [|simpl; discriminate].
  intros _.
  destruct (Osrm.geometry r) as [g|]; [|reflexivity].
  destruct (Osrm.isLineString g); [|reflexivity].
  destruct (Osrm.coordinates g) as [cs|]; [discriminate|reflexivity].
Qed.

Lemma onFetch_points acc origin dest f :
  allPolylinePoints (onFetch acc origin dest f) =
    allPolylinePoints acc ++ spec_legPolyline origin dest f.
Proof.
  unfold spec_legPolyline. destruct (fetchFailed f) eqn:Hfail.
  - rewrite onFetch_failed by assumption. simpl. now rewrite <- app_assoc.
  - destruct (fetchSucceeded f) as [[route coords]|] eqn:Hok.
    + now rewrite (onFetch_succeeded _ _ _ _ _ _ Hok).
    + rewrite onFetch_dropped by assumption. now rewrite app_nil_r.
Qed.

Lemma legs_points provider route (legs : list nat) :
  ∀ acc,
    allPolylinePoints (fold_left (legBody provider route) legs acc) =
      allPolylinePoints acc ++
      concat (map (fun i => spec_legPolyline (nth i route CODECA) (nth (i + 1) route CODECA)
                                             (legFetch provider route i)) legs).
Proof.
  induction legs as [|i legs IH]; intros acc; simpl.
  - now rewrite app_nil_r.
  - rewrite IH. unfold legBody, legFetch. rewrite onFetch_points, <- app_assoc. reflexivity.
Qed.

(** Two providers that, leg by leg, give the same answer or both fail
    yield the same totals. *)
Lemma legs_agree p1 p2 route (legs : list nat) :
  (∀ i origin dest,
      p1 i origin dest = p2 i origin dest ∨
      (fetchFailed (p1 i origin dest) = true ∧ fetchFailed (p2 i origin dest) = true)) ->
  ∀ acc, fold_left (legBody p1 route) legs acc = fold_left (legBody p2 route) legs acc.
Proof.
  intros Hagree. induction legs as [|i legs IH]; intros acc; simpl; [reflexivity|].
  rewrite IH. f_equal. unfold legBody.
  destruct (Hagree i (lng (nth i route CODECA), lat (nth i route CODECA))
                     (lng (nth (i + 1) route CODECA), lat (nth (i + 1) route CODECA)))
    as [->|[H1 H2]]; [reflexivity|].
  now rewrite !onFetch_failed.
Qed.

Lemma finish_positive route acc :
  (0 <? Result.totalDistance (finish route acc)) = true ∧
  (0 <? Result.totalDuration (finish route acc)) = true.
Proof.
  simpl. split.
  - destruct (0 <? totalDistance acc) eqn:H; [exact H | reflexivity].
  - destruct (0 <? totalDuration acc) eqn:H; [exact H | reflexivity].
Qed.

End Legs.

Lemma whileLoop_more_fuel (waypoints : list Waypoint) (fuel : nat) :
  ∀ (t t' : Tour) (fuel' : nat),
    whileLoop fuel waypoints t = Some t' -> fuel <= fuel' ->
    whileLoop fuel' waypoints t = Some t'.
Proof.
  induction fuel as [|fuel IH]; intros t t' fuel' Hrun Hle.
  - destruct fuel'; simpl in *;
      destruct (decide (size (visited t) < length waypoints)); congruence.
  - destruct fuel' as [|fuel']; [lia|]. simpl in *.
    destruct (decide (size (visited t) < length waypoints)); [|assumption].
    apply IH; [assumption|lia].
Qed.

Lemma sequence_fuel_independent (waypoints : list Waypoint) (fuel fuel' : nat) :
  sequence fuel waypoints <> None -> sequence fuel' waypoints <> None ->
  sequence fuel waypoints = sequence fuel' waypoints.
Proof.
  unfold sequence.
  destruct (whileLoop fuel waypoints tourInit) as [t|] eqn:H1; [|congruence].
  destruct (whileLoop fuel' waypoints tourInit) as [t'|] eqn:H2; [|congruence].
  intros _ _. destruct (Nat.le_ge_cases fuel fuel') as [Hle|Hle].
  - rewrite (whileLoop_more_fuel _ _ _ _ _ H1 Hle) in H2. congruence.
  - rewrite (whileLoop_more_fuel _ _ _ _ _ H2 Hle) in H1. congruence.
Qed.

(** ** The mutation [calculateRoute] *)

Section CalculateRoute.

Context {runtime : Runtime}.

Local Open Scope float_scope.

Lemma calculateRoute_empty fuel provider :
  calculateRoute fuel provider [] = Throws (Error "No containers provided").
Proof. reflexivity. Qed.

Lemma calculateRoute_null_container fuel provider rest :
  calculateRoute fuel provider (None :: rest) =
    Throws (TypeError "Cannot read properties of null (reading 'latitude')").
Proof. reflexivity. Qed.

Lemma calculateRoute_objects fuel provider (containers : list Container) :
  containers <> [] ->
  calculateRoute fuel provider (map Some containers) =
    match sequence fuel (map waypointOf containers) with
    | None => OutOfFuel
    | Some route => Returns (finish route (legLoop provider route))
    end.
Proof.
  intros Hne. unfold calculateRoute. rewrite mapWaypoints_objects.
  destruct containers; [contradiction|reflexivity].
Qed.




(** C5 (as amended): for every tour, including tours where the
    primary call of every leg fails, calculateRoute returns a
    totalDistance above 0 and a totalDuration above 0: an accumulated
    distance that is above 0 is returned as it is, also when it is
    below 0.1 km, and any other is returned as 0.1 km; an accumulated
    duration that is above 0 is returned as it is, also when it is
    below 1 minute, and any other is returned as 1 minute.  In
    particular an accumulated distance of 0 is reported as 0.1 km and
    an accumulated duration of 0 as 1 minute. *)
Theorem totals_are_positive (fuel : nat) (provider : Osrm.Provider)
    (containers : list (option Container)) :
  match calculateRoute fuel provider containers with
  | Returns r =>
      (0 <? Result.totalDistance r) = true ∧ (0 <? Result.totalDuration r) = true
  | _ => True
  end ∧
  (∀ route acc,
      Result.totalDistance (finish route acc) =
        (if 0 <? totalDistance acc then totalDistance acc else 0.1) ∧
      Result.totalDuration (finish route acc) =
        (if 0 <? totalDuration acc then totalDuration acc else 1)) ∧
  (∀ route points,
      Result.totalDistance
        (finish route {| allPolylinePoints := points; totalDistance := 0; totalDuration := 0 |})
        = 0.1 ∧
      Result.totalDuration
        (finish route {| allPolylinePoints := points; totalDistance := 0; totalDuration := 0 |})
        = 1).
Proof.
  split; [|split].
  - unfold calculateRoute. destruct (Nat.eqb (length containers) 0); [exact I|].
    destruct (mapWaypoints containers) as [ws| |]; try exact I.
    destruct (sequence fuel ws) as [route|]; [|exact I].
    apply finish_positive.
  - intros route acc. split; reflexivity.
  - intros route points. split; reflexivity.
Qed.

(** C10: for every leg whose response has code "Ok" and a LineString
    geometry with coordinates, calculateRoute appends the coordinates
    of the geometry, not the straight line of the fallback; when the
    route of the response has no distance it adds 0 to the total
    distance, and when it has no duration it adds 0 to the total
    duration. *)
Theorem provider_leg_without_measures_adds_zero
    (provider : Osrm.Provider) (tour : list Waypoint) (acc : Totals) (i : nat)
    (data : Osrm.Data) (route : Osrm.Route) (g : Osrm.Geometry) (coords : list LngLat) :
  legFetch provider tour i = Osrm.Responds data ->
  Osrm.codeIsOk data = true ->
  Osrm.firstRoute data = Some route ->
  Osrm.geometry route = Some g ->
  Osrm.isLineString g = true ->
  Osrm.coordinates g = Some coords ->
  allPolylinePoints (legBody provider tour acc i) = allPolylinePoints acc ++ coords ∧
  (Osrm.distance route = None ->
   totalDistance (legBody provider tour acc i) = totalDistance acc + 0) ∧
  (Osrm.duration route = None ->
   totalDuration (legBody provider tour acc i) = totalDuration acc + 0).
Proof.
  intros Hfetch Hcode Hroute Hgeom Hline Hcoords.
  unfold legBody. unfold legFetch in Hfetch. rewrite Hfetch.
  rewrite (onFetch_succeeded _ _ _ _ route coords).
  - simpl. split; [reflexivity|]. split; intros ->; reflexivity.
  - simpl. now rewrite Hcode, Hroute, Hgeom, Hline, Hcoords.
Qed.

(** C9: two runs of calculateRoute on the same containers, in the
    same order, that both come to an end give the same outcome when,
    for every leg, the provider gives the same answer in both runs or
    fails in both runs, in whatever way: the fallback of a leg depends
    on the coordinates of the leg only. *)
Theorem calculateRoute_deterministic (fuel1 fuel2 : nat) (p1 p2 : Osrm.Provider)
    (containers : list (option Container)) :
  (∀ i origin dest,
      p1 i origin dest = p2 i origin dest ∨
      (fetchFailed (p1 i origin dest) = true ∧ fetchFailed (p2 i origin dest) = true)) ->
  calculateRoute fuel1 p1 containers <> OutOfFuel ->
  calculateRoute fuel2 p2 containers <> OutOfFuel ->
  calculateRoute fuel1 p1 containers = calculateRoute fuel2 p2 containers.
Proof.
  intros Hagree. unfold calculateRoute.
  destruct (Nat.eqb (length containers) 0); [reflexivity|].
  destruct (mapWaypoints containers) as [ws|e|]; [|reflexivity|reflexivity].
  intros H1 H2.
  assert (Hs1 : sequence fuel1 ws <> None) by (destruct (sequence fuel1 ws); congruence).
  assert (Hs2 : sequence fuel2 ws <> None) by (destruct (sequence fuel2 ws); congruence).
  rewrite (sequence_fuel_independent ws fuel1 fuel2 Hs1 Hs2).
  destruct (sequence fuel2 ws) as [route|]; [|reflexivity].
  unfold legLoop. now rewrite (legs_agree p1 p2 route _ Hagree).
Qed.

End CalculateRoute.

Lemma provider_leg_without_measures_adds_zero_witness :
  let provider : Osrm.Provider := fun _ _ _ => Osrm.Responds unmeasuredResponse in
  let tour := [CODECA; waypointOf container1; CODECA] in
  let leg := legBody (runtime := exampleRuntime) provider tour totalsInit 0 in
  allPolylinePoints leg =
    [] ++ [((-51.185)%float, (-29.175)%float); ((-51.19)%float, (-29.18)%float)] ∧
  (@None float = None -> totalDistance leg = (0 + 0)%float) ∧
  (@None float = None -> totalDuration leg = (0 + 0)%float).
Proof.
  intros provider tour leg.
  apply (provider_leg_without_measures_adds_zero (runtime := exampleRuntime)
           provider tour totalsInit 0 unmeasuredResponse
           {| Osrm.geometry :=
                Some {| Osrm.type := Some "LineString";
                        Osrm.coordinates :=
                          Some [((-51.185)%float, (-29.175)%float);
                                ((-51.19)%float, (-29.18)%float)] |};
              Osrm.distance := None;
              Osrm.duration := None |}
           {| Osrm.type := Some "LineString";
              Osrm.coordinates :=
                Some [((-51.185)%float, (-29.175)%float); ((-51.19)%float, (-29.18)%float)] |});
    reflexivity.
Defined.

Lemma calculateRoute_deterministic_witness :
  calculateRoute (runtime := exampleRuntime) 2
    (fun _ _ _ => Osrm.Fails (Error "fetch failed")) [Some container2; Some container1] =
  calculateRoute (runtime := exampleRuntime) 5
    (fun _ _ _ => Osrm.Responds noRouteResponse) [Some container2; Some container1].
Proof.
  apply (calculateRoute_deterministic (runtime := exampleRuntime)).
  - intros i origin dest. right. split; reflexivity.
  - vm_compute. discriminate.
  - vm_compute. discriminate.
Defined.

(** C5 (counterexample): one container and a provider that answers each
    of the two legs with 10 metres and 6 seconds.  The accumulated
    distance is 0.02 km and the accumulated duration 0.2 minutes; both
    are above 0, so they are returned as they are, below 0.1 km and
    below 1 minute. *)
Lemma short_route_is_below_the_floor :
  match calculateRoute (runtime := exampleRuntime) 1
          (fun _ _ _ => Osrm.Responds shortLegResponse) [Some container1] with
  | Returns r =>
      Result.totalDistance r = 0.02%float ∧
      (0.1 <=? Result.totalDistance r)%float = false ∧
      (1 <=? Result.totalDuration r)%float = false
  | _ => False
  end.
Proof. vm_compute. repeat split. Qed.


(** C4 (failing input): a response with code "Ok" whose first route has
    a geometry that is not a LineString.  The leg is not a failure of
    the kinds that reach the fallback, and the body of the leg changes
    nothing: no point is appended and nothing is added to the totals,
    where the fallback appends the two ends of the leg.  With this
    answer on every leg, the route of one container comes back with the
    waypoints as its polyline and with the floor values 0.1 km and
    1 minute. *)
Theorem calculateRoute_drops_leg_without_linestring :
  ∀ (runtime : Runtime),
    fetchFailed (Osrm.Responds pointGeometryResponse) = false ∧
    (∀ acc origin dest,
        onFetch acc origin dest (Osrm.Responds pointGeometryResponse) = acc ∧
        allPolylinePoints (fallbackLeg acc origin dest) =
          allPolylinePoints acc ++ [(lng origin, lat origin); (lng dest, lat dest)]) ∧
    calculateRoute 1 (fun _ _ _ => Osrm.Responds pointGeometryResponse) [Some container1] =
      Returns {| Result.polylinePoints :=
                   [(lng CODECA, lat CODECA);
                    (longitude container1, latitude container1);
                    (lng CODECA, lat CODECA)];
                 Result.distance := (toFixed 0.1%float 2 ++ " km")%string;
                 Result.duration := (toString (Math_round 1%float) ++ " min")%string;
                 Result.totalDistance := 0.1%float;
                 Result.totalDuration := 1%float |}.
Proof.
  intros runtime. split; [reflexivity|]. split.
  - intros acc origin dest. split; [reflexivity|]. simpl. now rewrite <- app_assoc.
  - vm_compute. reflexivity.
Qed.

(** ** Route persistence *)

Section Persistence.

Context {runtime : Runtime}.

Import Db.

Local Ltac run :=
  unfold saveRouteMutation, saveRoute, saveRouteSavings, insertRouteHistory,
    insertRouteSavings, selectFirstRouteById, send, getDb, bind, ret, throw,
    savingsWrites, routeWrites in *;
  simpl in *.

(** [saveRoute] of [db.ts] neither changes [routeSavings] nor sends an
    insertion into it. *)
Lemma saveRoute_leaves_savings (r : InsertRouteHistory) (w w1 : World)
    (res : Outcome (option InsertResult)) :
  saveRoute r w = (res, w1) ->
  routeSavings w1 = routeSavings w ∧ savingsWrites w1 = savingsWrites w.
Proof.
  destruct w as [db rh rhn rs rsn snt flt]. run.
  destruct db; simpl.
  - destruct flt as [|[|] [|[|] flt]]; simpl; intros [= <- <-]; split; reflexivity.
  - intros [= <- <-]. split; reflexivity.
Qed.

(** [ORDER BY id LIMIT 1] selects the row of least identifier. *)
Lemma head_insertById (r : RouteHistory) (rows : list RouteHistory) :
  option_map id (head (insertById r rows)) =
    Some (match option_map id (head rows) with
          | None => id r
          | Some m => Nat.min (id r) m
          end).
Proof.
  destruct rows as [|r' rows]; simpl; [reflexivity|].
  destruct (Nat.leb (id r) (id r')) eqn:Hle; simpl; f_equal.
  - apply Nat.leb_le in Hle. lia.
  - apply Nat.leb_gt in Hle. lia.
Qed.

Lemma head_orderById (rows : list RouteHistory) :
  option_map id (head (take 1 (orderById rows))) = leastId rows.
Proof.
  assert (H : option_map id (head (orderById rows)) = leastId rows).
  { induction rows as [|r rows IH]; simpl; [reflexivity|].
    now rewrite head_insertById, IH. }
  rewrite <- H. now destruct (orderById rows).
Qed.

Lemma leastId_app (rows : list RouteHistory) (r : RouteHistory) :
  leastId (rows ++ [r]) =
    Some (match leastId rows with
          | None => id r
          | Some m => Nat.min m (id r)
          end).
Proof.
  induction rows as [|r' rows IH]; simpl; [reflexivity|].
  rewrite IH. f_equal. destruct (leastId rows); lia.
Qed.

Lemma leastId_in (rows : list RouteHistory) (m : nat) :
  leastId rows = Some m -> ∃ r, In r rows ∧ id r = m.
Proof.
  revert m. induction rows as [|r rows IH]; simpl; intros m; [discriminate|].
  destruct (leastId rows) as [m'|]; intros [= <-].
  - destruct (Nat.min_spec (id r) m') as [[_ ->]|[_ ->]].
    + exists r. split; [now left|reflexivity].
    + destruct (IH m' eq_refl) as (r' & Hin & Hid). exists r'. split; [now right|exact Hid].
  - exists r. split; [now left|reflexivity].
Qed.

(** On a database that answers, the mutation writes one route record
    under the next generated key and then reads back the least
    identifier of the table. *)
Lemma saveRouteMutation_healthy (input : SaveRouteInput) (w : World) :
  hasDatabase w = true -> faults w = [] ->
  saveRouteMutation input w =
    let least := match leastId (routeHistory w) with
                 | None => routeHistoryNextId w
                 | Some m => Nat.min m (routeHistoryNextId w)
                 end in
    let rows := routeHistory w ++ [{| id := routeHistoryNextId w; route := routeRecord input |}] in
    match least with
    | O => (Throws (Error "Failed to get route ID from insert result"),
            {| hasDatabase := true;
               routeHistory := rows;
               routeHistoryNextId := S (routeHistoryNextId w);
               routeSavings := routeSavings w;
               routeSavingsNextId := routeSavingsNextId w;
               sent := SelectFromRouteHistory :: InsertIntoRouteHistory :: sent w;
               faults := [] |})
    | S n => (Returns {| success := true; routeId_out := S n |},
              {| hasDatabase := true;
                 routeHistory := rows;
                 routeHistoryNextId := S (routeHistoryNextId w);
                 routeSavings :=
                   routeSavings w ++ [{| savingsId := routeSavingsNextId w;
                                         savings := savingsRecord (S n) input |}];
                 routeSavingsNextId := S (routeSavingsNextId w);
                 sent := InsertIntoRouteSavings :: SelectFromRouteHistory ::
                         InsertIntoRouteHistory :: sent w;
                 faults := [] |})
    end.
Proof.
  destruct w as [db rh rhn rs rsn snt flt]. simpl. intros -> ->.
  unfold saveRouteMutation, saveRoute, bind at 1 2 3 4. simpl.
  unfold insertRouteHistory, selectFirstRouteById, bind, send, ret. simpl.
  rewrite head_orderById, leastId_app. simpl.
  destruct (match leastId rh with Some m => Nat.min m rhn | None => rhn end); reflexivity.
Qed.

(** When the table already holds routes with generated keys, the
    identifier that the mutation returns and stores in the savings
    record is the least identifier of the earlier routes, which is
    below the identifier generated for the new route record. *)
Lemma saveRouteMutation_links_earliest (input : SaveRouteInput) (w : World) :
  hasDatabase w = true -> faults w = [] -> generatedKeys w -> routeHistory w <> [] ->
  ∃ m w',
    leastId (routeHistory w) = Some m ∧
    m < routeHistoryNextId w ∧
    saveRouteMutation input w = (Returns {| success := true; routeId_out := m |}, w') ∧
    routeHistory w' =
      routeHistory w ++ [{| id := routeHistoryNextId w; route := routeRecord input |}] ∧
    routeSavings w' =
      routeSavings w ++ [{| savingsId := routeSavingsNextId w;
                            savings := savingsRecord m input |}].
Proof.
  intros Hdb Hfaults Hkeys Hrows.
  rewrite (saveRouteMutation_healthy input w Hdb Hfaults).
  destruct (leastId (routeHistory w)) as [m|] eqn:Hleast.
  2:{ destruct (routeHistory w); [contradiction|discriminate]. }
  destruct (leastId_in _ _ Hleast) as (r & Hin & Hid).
  unfold generatedKeys in Hkeys. rewrite Forall_forall in Hkeys.
  apply list_elem_of_In in Hin. specialize (Hkeys r Hin). rewrite Hid in Hkeys.
  simpl. replace (Nat.min m (routeHistoryNextId w)) with m by lia.
  destruct m as [|n]; [lia|].
  eexists _, _. split; [reflexivity|]. split; [lia|]. split; [reflexivity|].
  split; reflexivity.
Qed.

(** On an empty table the returned identifier is the one generated
    for the new route record. *)
Lemma saveRouteMutation_first_route (input : SaveRouteInput) (w : World) :
  hasDatabase w = true -> faults w = [] -> routeHistory w = [] ->
  1 <= routeHistoryNextId w ->
  ∃ w',
    saveRouteMutation input w =
      (Returns {| success := true; routeId_out := routeHistoryNextId w |}, w') ∧
    routeHistory w' = [{| id := routeHistoryNextId w; route := routeRecord input |}] ∧
    routeSavings w' =
      routeSavings w ++ [{| savingsId := routeSavingsNextId w;
                            savings := savingsRecord (routeHistoryNextId w) input |}].
Proof.
  intros Hdb Hfaults Hrows Hnext.
  rewrite (saveRouteMutation_healthy input w Hdb Hfaults), Hrows. simpl.
  destruct (routeHistoryNextId w) as [|n]; [lia|].
  eexists. split; [reflexivity|]. split; reflexivity.
Qed.

(** C7: for every invocation of the saveRoute mutation in which the
    write of the route record yields no identifier (saveRoute throws,
    returns no result, or returns a result with no extractable id),
    the mutation fails with an error thrown to the caller, in the
    world that saveRoute left: the savings table is unchanged and no
    insertion into it has been sent. *)
Theorem saveRoute_without_id_writes_no_savings (input : SaveRouteInput) (w w1 : World)
    (r : Outcome (option InsertResult)) :
  saveRoute (routeRecord input) w = (r, w1) ->
  yieldsNoId r = true ->
  ∃ e, saveRouteMutation input w = (Throws e, w1) ∧
       routeSavings w1 = routeSavings w ∧
       savingsWrites w1 = savingsWrites w.
Proof.
  intros Hsave Hno.
  pose proof (saveRoute_leaves_savings _ _ _ _ Hsave) as Hsavings.
  unfold saveRouteMutation, bind. rewrite Hsave.
  destruct r as [[res|]|e|]; simpl in Hno; try discriminate.
  - destruct (extractRouteId res); [discriminate|]. eexists. split; [reflexivity|exact Hsavings].
  - eexists. split; [reflexivity|exact Hsavings].
  - exists e. split; [reflexivity|exact Hsavings].
Qed.

End Persistence.

Lemma saveRoute_without_id_writes_no_savings_witness :
  ∃ e, saveRouteMutation (runtime := exampleRuntime) exampleInput worldWithoutDatabase =
         (Throws e, worldWithoutDatabase) ∧
       Db.routeSavings worldWithoutDatabase = Db.routeSavings worldWithoutDatabase ∧
       savingsWrites worldWithoutDatabase = savingsWrites worldWithoutDatabase.
Proof.
  apply (saveRoute_without_id_writes_no_savings (runtime := exampleRuntime)
           exampleInput worldWithoutDatabase worldWithoutDatabase (Returns None));
    reflexivity.
Defined.

(** C3 (failing input): the database holds one earlier route, of
    identifier 1.  The mutation writes one route record, under the
    generated identifier 2, and one savings record; the identifier it
    returns and the routeId of the new savings record are both 1, the
    identifier of the earlier route, since saveRoute reads back the
    first row in ascending order of id. *)
Theorem saveRoute_links_savings_to_earlier_route :
  ∀ (runtime : Runtime),
    let run := saveRouteMutation exampleInput worldWithOneRoute in
    fst run = Returns {| success := true; routeId_out := 1 |} ∧
    map Db.id (Db.routeHistory (snd run)) = [1; 2] ∧
    map (fun s => Db.routeId (Db.savings s)) (Db.routeSavings (snd run)) = [1; 1] ∧
    routeWrites (snd run) = 1 ∧
    savingsWrites (snd run) = 1.
Proof. intros runtime. vm_compute. repeat split. Qed.

(** * Further properties *)

(** ** The route as a whole *)

Section RouteAsAWhole.

Context {runtime : Runtime}.

Local Open Scope float_scope.

Lemma sequence_shape (waypoints : list Waypoint) (fuel : nat) :
  distancesFinite waypoints = true ->
  length waypoints <= fuel ->
  ∃ mid, length mid = length waypoints ∧
         sequence fuel waypoints = Some (CODECA :: mid ++ [CODECA]).
Proof.
  intros Hfin Hfuel.
  destruct (sequence_returns waypoints fuel Hfin Hfuel) as (order & Hperm & ->).
  exists (map (pick waypoints) order). split; [|reflexivity].
  now rewrite length_map, (Permutation_length Hperm), length_seq.
Qed.

(** X1: for a non-empty list of containers that are objects and whose
    planar distances are all below Infinity, calculateRoute returns a
    result whatever the provider does on each leg (a thrown error, an
    error code, a response without usable geometry): no failure of the
    provider reaches the caller.  The polyline of the result is not
    empty and its totals are above 0. *)
Theorem calculateRoute_returns_whatever_the_provider
    (fuel : nat) (provider : Osrm.Provider) (containers : list Container) :
  containers <> [] ->
  distancesFinite (map waypointOf containers) = true ->
  length containers <= fuel ->
  ∃ r, calculateRoute fuel provider (map Some containers) = Returns r ∧
       Result.polylinePoints r <> [] ∧
       (0 <? Result.totalDistance r) = true ∧
       (0 <? Result.totalDuration r) = true.
Proof.
  intros Hne Hfin Hfuel.
  rewrite (calculateRoute_objects fuel provider containers Hne).
  destruct (sequence_shape (map waypointOf containers) fuel Hfin) as (mid & _ & ->).
  { now rewrite length_map. }
  eexists. split; [reflexivity|]. split; [|apply finish_positive].
  simpl. destruct (allPolylinePoints _); simpl; discriminate.
Qed.


Lemma failed_legs_points (provider : Osrm.Provider) (route : list Waypoint) (legs : list nat) :
  (∀ i origin dest, fetchFailed (provider i origin dest) = true) ->
  concat (map (fun i => spec_legPolyline (nth i route CODECA) (nth (i + 1) route CODECA)
                                         (legFetch provider route i)) legs) =
  concat (map (fun i => [(lng (nth i route CODECA), lat (nth i route CODECA));
                         (lng (nth (i + 1) route CODECA), lat (nth (i + 1) route CODECA))])
              legs).
Proof.
  intros Hfail. induction legs as [|i legs IH]; simpl; [reflexivity|].
  rewrite IH. unfold spec_legPolyline, legFetch. now rewrite Hfail.
Qed.

Lemma last_two {A : Type} (l : list A) (a b : A) : last (l ++ [a; b]) = Some b.
Proof. change (l ++ [a; b]) with (l ++ [a] ++ [b]). rewrite app_assoc. apply last_snoc. Qed.

Lemma length_concat_pairs {A : Type} (f : nat -> list A) (legs : list nat) :
  (∀ i, length (f i) = 2%nat) -> length (concat (map f legs)) = (2 * length legs)%nat.
Proof.
  intros Hf. induction legs as [|i legs IH]; simpl; [reflexivity|].
  rewrite length_app, Hf, IH. lia.
Qed.

(** X3: when the primary call fails on every leg, the polyline of the
    result is made of the straight lines of the legs only: it has
    exactly 2 * (number of containers + 1) points, and it starts and
    ends at the (longitude, latitude) of the depot. *)
Theorem all_legs_failed_polyline
    (fuel : nat) (provider : Osrm.Provider) (containers : list Container) :
  containers <> [] ->
  distancesFinite (map waypointOf containers) = true ->
  length containers <= fuel ->
  (∀ i origin dest, fetchFailed (provider i origin dest) = true) ->
  ∃ r, calculateRoute fuel provider (map Some containers) = Returns r ∧
       length (Result.polylinePoints r) = (2 * (length containers + 1))%nat ∧
       head (Result.polylinePoints r) = Some (lng CODECA, lat CODECA) ∧
       last (Result.polylinePoints r) = Some (lng CODECA, lat CODECA).
Proof.
  intros Hne Hfin Hfuel Hfail.
  rewrite (calculateRoute_objects fuel provider containers Hne).
  destruct (sequence_shape (map waypointOf containers) fuel Hfin) as (mid & Hmid & ->).
  { now rewrite length_map. }
  rewrite length_map in Hmid.
  eexists. split; [reflexivity|].
  set (route := CODECA :: mid ++ [CODECA]).
  assert (Hlen : (length route - 1)%nat = S (length containers)).
  { unfold route. simpl. rewrite length_app. simpl. lia. }
  assert (Hpoints : allPolylinePoints (legLoop provider route) =
            concat (map (fun i => [(lng (nth i route CODECA), lat (nth i route CODECA));
                                   (lng (nth (i + 1) route CODECA),
                                    lat (nth (i + 1) route CODECA))])
                        (seq 0 (S (length containers))))).
  { unfold legLoop. rewrite legs_points, Hlen. simpl allPolylinePoints at 1.
    rewrite app_nil_l. now apply failed_legs_points. }
  assert (Hres : Result.polylinePoints (finish route (legLoop provider route)) =
                 allPolylinePoints (legLoop provider route)).
  { simpl. rewrite Hpoints. reflexivity. }
  rewrite Hres, Hpoints. split; [|split].
  - rewrite length_concat_pairs by reflexivity. rewrite length_seq. lia.
  - reflexivity.
  - assert (Hlast : nth (length containers + 1)%nat route CODECA = CODECA).
    { unfold route. replace (length containers + 1)%nat with (S (length mid)) by lia.
      simpl. now rewrite nth_middle. }
    rewrite seq_S, map_app, concat_app. cbn [map concat Nat.add].
    rewrite app_nil_r, Hlast. apply last_two.
Qed.

End RouteAsAWhole.


Lemma calculateRoute_returns_whatever_the_provider_witness :
  ∃ r, calculateRoute (runtime := exampleRuntime) 2
         (fun _ _ _ => Osrm.Responds pointGeometryResponse)
         (map Some [container2; container1]) = Returns r ∧
       Result.polylinePoints r <> [] ∧
       (0 <? Result.totalDistance r)%float = true ∧
       (0 <? Result.totalDuration r)%float = true.
Proof.
  apply (calculateRoute_returns_whatever_the_provider (runtime := exampleRuntime)).
  - discriminate.
  - vm_compute. reflexivity.
  - simpl. lia.
Defined.

Lemma all_legs_failed_polyline_witness :
  ∃ r, calculateRoute (runtime := exampleRuntime) 2
         (fun _ _ _ => Osrm.Fails (Error "fetch failed"))
         (map Some [container2; container1]) = Returns r ∧
       length (Result.polylinePoints r) = 2 * (length [container2; container1] + 1) ∧
       head (Result.polylinePoints r) = Some (lng CODECA, lat CODECA) ∧
       last (Result.polylinePoints r) = Some (lng CODECA, lat CODECA).
Proof.
  apply (all_legs_failed_polyline (runtime := exampleRuntime)).
  - discriminate.
  - vm_compute. reflexivity.
  - simpl. lia.
  - intros i origin dest. reflexivity.
Defined.

(** ** Saving a route and reading its savings back *)

Section SavingAndReading.

Context {runtime : Runtime}.

Import Db.

(** X4: on a database that answers and whose route table is empty, the
    saveRoute mutation sends one insertion into each table, writes the
    route record under the next generated identifier, returns that
    identifier and stores it as the routeId of the savings record. *)
Theorem saveRoute_on_empty_table_links_new_route (input : SaveRouteInput) (w : World) :
  hasDatabase w = true -> faults w = [] -> routeHistory w = [] ->
  1 <= routeHistoryNextId w ->
  ∃ w',
    saveRouteMutation input w =
      (Returns {| success := true; routeId_out := routeHistoryNextId w |}, w') ∧
    routeHistory w' = [{| id := routeHistoryNextId w; route := routeRecord input |}] ∧
    routeSavings w' =
      routeSavings w ++ [{| savingsId := routeSavingsNextId w;
                            savings := savingsRecord (routeHistoryNextId w) input |}] ∧
    routeWrites w' = S (routeWrites w) ∧
    savingsWrites w' = S (savingsWrites w).
Proof.
  intros Hdb Hfaults Hrows Hnext.
  rewrite (saveRouteMutation_healthy input w Hdb Hfaults), Hrows. simpl.
  destruct (routeHistoryNextId w) as [|n]; [lia|].
  eexists. split; [reflexivity|]. repeat split.
Qed.

(** X5: on a database that answers and whose route table already holds
    routes under generated identifiers, the identifier that the
    saveRoute mutation returns, and stores as the routeId of the new
    savings record, is the least identifier of the routes that were
    there before; it differs from the identifier under which the new
    route record is written. *)
Theorem saveRoute_on_earlier_routes_links_the_oldest (input : SaveRouteInput) (w : World) :
  hasDatabase w = true -> faults w = [] -> generatedKeys w -> routeHistory w <> [] ->
  ∃ m w',
    leastId (routeHistory w) = Some m ∧
    m <> routeHistoryNextId w ∧
    saveRouteMutation input w = (Returns {| success := true; routeId_out := m |}, w') ∧
    routeHistory w' =
      routeHistory w ++ [{| id := routeHistoryNextId w; route := routeRecord input |}] ∧
    routeSavings w' =
      routeSavings w ++ [{| savingsId := routeSavingsNextId w;
                            savings := savingsRecord m input |}].
Proof.
  intros Hdb Hfaults Hkeys Hrows.
  rewrite (saveRouteMutation_healthy input w Hdb Hfaults).
  destruct (leastId (routeHistory w)) as [m|] eqn:Hleast.
  2:{ destruct (routeHistory w); [contradiction|discriminate]. }
  destruct (leastId_in _ _ Hleast) as (r & Hin & Hid).
  unfold generatedKeys in Hkeys. rewrite Forall_forall in Hkeys.
  apply list_elem_of_In in Hin. specialize (Hkeys r Hin). rewrite Hid in Hkeys.
  simpl. replace (Nat.min m (routeHistoryNextId w)) with m by lia.
  destruct m as [|n]; [lia|].
  eexists _, _. split; [reflexivity|]. split; [lia|]. repeat split.
Qed.

(** X6: when the insertion of the savings record fails after the route
    record has been written, the saveRoute mutation throws the error of
    the database and the route record stays in its table, without a
    savings record: nothing is rolled back. *)
Theorem saveRoute_keeps_route_when_savings_fail
    (input : SaveRouteInput) (w : World) (rest : list bool) :
  hasDatabase w = true -> faults w = false :: false :: true :: rest ->
  generatedKeys w -> 1 <= routeHistoryNextId w ->
  ∃ e w',
    saveRouteMutation input w = (Throws e, w') ∧
    routeHistory w' =
      routeHistory w ++ [{| id := routeHistoryNextId w; route := routeRecord input |}] ∧
    routeSavings w' = routeSavings w ∧
    savingsWrites w' = S (savingsWrites w).
Proof.
  destruct w as [db rh rhn rs rsn snt flt]. simpl. intros -> -> Hkeys Hnext.
  unfold saveRouteMutation, saveRoute, bind at 1 2 3 4. simpl.
  unfold insertRouteHistory, selectFirstRouteById, bind, send, ret. simpl.
  rewrite head_orderById, leastId_app. simpl.
  assert (Hleast : ∃ n, match leastId rh with
                        | Some m => Nat.min m rhn
                        | None => rhn
                        end = S n).
  { destruct (leastId rh) as [m|] eqn:Hm.
    - destruct (leastId_in _ _ Hm) as (r & Hin & Hid).
      unfold generatedKeys in Hkeys. simpl in Hkeys. rewrite Forall_forall in Hkeys.
      apply list_elem_of_In in Hin. specialize (Hkeys r Hin). rewrite Hid in Hkeys.
      exists (Nat.pred (Nat.min m rhn)). lia.
    - exists (Nat.pred rhn). lia. }
  destruct Hleast as [n ->]. unfold extractRouteId. simpl.
  unfold saveRouteSavings, insertRouteSavings, bind, send, getDb, ret. simpl.
  eexists _, _. split; [reflexivity|]. repeat split.
Qed.

Import Reports.

Lemma head_take_1 {A : Type} (l : list A) :
  (if Nat.ltb 0 (length (take 1 l)) then head (take 1 l) else None) = head l.
Proof. destruct l; reflexivity. Qed.

(** What [getRouteSavingsByRouteId] computes, case by case. *)
Lemma getRouteSavingsByRouteId_run (routeId : nat) (w : World) :
  getRouteSavingsByRouteId routeId w =
    if hasDatabase w then
      (Returns (match faults w with
                | true :: _ => None
                | _ => head (List.filter (fun r => Nat.eqb (Db.routeId (savings r)) routeId)
                                         (routeSavings w))
                end),
       {| hasDatabase := hasDatabase w;
          routeHistory := routeHistory w;
          routeHistoryNextId := routeHistoryNextId w;
          routeSavings := routeSavings w;
          routeSavingsNextId := routeSavingsNextId w;
          sent := sent w;
          faults := tl (faults w) |})
    else (Returns None, w).
Proof.
  destruct w as [db rh rhn rs rsn snt flt].
  unfold getRouteSavingsByRouteId, tryCatch, selectSavingsByRouteId, read, bind, getDb, ret.
  simpl. destruct db; simpl; [|reflexivity].
  destruct flt as [|[|] flt]; simpl; try reflexivity; now rewrite head_take_1.
Qed.

Lemma head_filter_routeId (rows : list RouteSavings) (routeId : nat) (row : RouteSavings) :
  head (List.filter (fun r => Nat.eqb (Db.routeId (savings r)) routeId) rows) = Some row ->
  In row rows ∧ Db.routeId (savings row) = routeId.
Proof.
  destruct (List.filter _ rows) as [|x l] eqn:Hf; intros [= <-].
  assert (Hin : In x (List.filter (fun r => Nat.eqb (Db.routeId (savings r)) routeId) rows))
    by (rewrite Hf; now left).
  apply filter_In in Hin. destruct Hin as [Hin Heq]. split; [exact Hin|].
  now apply Nat.eqb_eq in Heq.
Qed.

(** X7: getRouteSavingsByRouteId never throws and never writes: with no
    database or when the query fails it returns null, and both tables
    are as they were.  A record that it returns is a record of the
    savings table whose routeId is the one asked for. *)
Theorem getRouteSavingsByRouteId_never_throws (routeId : nat) (w : World) :
  ∃ r w',
    getRouteSavingsByRouteId routeId w = (Returns r, w') ∧
    routeHistory w' = routeHistory w ∧
    routeSavings w' = routeSavings w ∧
    (hasDatabase w = false -> r = None) ∧
    (∀ rest, faults w = true :: rest -> r = None) ∧
    (∀ row, r = Some row -> In row (routeSavings w) ∧ Db.routeId (savings row) = routeId).
Proof.
  rewrite getRouteSavingsByRouteId_run.
  destruct (hasDatabase w) eqn:Hdb.
  - eexists _, _. split; [reflexivity|]. split; [reflexivity|]. split; [reflexivity|].
    split; [discriminate|]. split.
    + intros rest ->. reflexivity.
    + intros row. destruct (faults w) as [|[|] flt];
        [apply head_filter_routeId | discriminate | apply head_filter_routeId].
  - eexists _, _. split; [reflexivity|]. split; [reflexivity|]. split; [reflexivity|].
    split; [reflexivity|]. split; [reflexivity|]. discriminate.
Qed.

Lemma filter_fresh_routeId (rows : list RouteSavings) (row : RouteSavings) (routeId : nat) :
  Db.routeId (savings row) = routeId ->
  Forall (fun s => Db.routeId (savings s) <> routeId) rows ->
  List.filter (fun r => Nat.eqb (Db.routeId (savings r)) routeId) (rows ++ [row]) = [row].
Proof.
  intros Hrow Hfresh. rewrite List.filter_app. simpl. rewrite Hrow, Nat.eqb_refl.
  induction Hfresh as [|s rows Hs _ IH]; simpl; [reflexivity|].
  apply Nat.eqb_neq in Hs. now rewrite Hs.
Qed.

(** X8: on a database that answers, a savings record written by
    saveRouteSavings for a route that had no savings record is the one
    that getRouteSavingsByRouteId returns for that route. *)
Theorem saved_savings_are_read_back (s : InsertRouteSavings) (w : World) :
  hasDatabase w = true -> faults w = [] ->
  Forall (fun r => Db.routeId (savings r) <> Db.routeId s) (routeSavings w) ->
  ∃ w1 w2,
    saveRouteSavings s w = (Returns true, w1) ∧
    getRouteSavingsByRouteId (Db.routeId s) w1 =
      (Returns (Some {| savingsId := routeSavingsNextId w; savings := s |}), w2).
Proof.
  destruct w as [db rh rhn rs rsn snt flt]. simpl. intros -> -> Hfresh.
  eexists _, _. split.
  - unfold saveRouteSavings, insertRouteSavings, bind, send, getDb, ret. simpl. reflexivity.
  - rewrite getRouteSavingsByRouteId_run. simpl.
    rewrite (filter_fresh_routeId rs {| savingsId := rsn; savings := s |} (Db.routeId s)
               eq_refl Hfresh).
    reflexivity.
Qed.

Lemma filter_no_routeId (rows : list RouteSavings) (routeId : nat) :
  Forall (fun s => Db.routeId (savings s) <> routeId) rows ->
  List.filter (fun r => Nat.eqb (Db.routeId (savings r)) routeId) rows = [].
Proof.
  intros Hnone. induction Hnone as [|s rows Hs _ IH]; simpl; [reflexivity|].
  apply Nat.eqb_neq in Hs. now rewrite Hs.
Qed.

Lemma savings_below_next_id (w : World) :
  savingsReferToRoutes w ->
  Forall (fun s => Db.routeId (savings s) <> routeHistoryNextId w) (routeSavings w).
Proof.
  unfold savingsReferToRoutes. intros H. eapply Forall_impl; [exact H|].
  intros s Hs. simpl in Hs. lia.
Qed.

(** X9: when the route table already holds routes under generated
    identifiers and every savings record refers to a written route, the
    route record that the saveRoute mutation writes has no savings
    record afterwards: getRouteSavingsByRouteId returns null for its
    identifier. *)
Theorem new_route_has_no_savings_after_earlier_routes (input : SaveRouteInput) (w : World) :
  hasDatabase w = true -> faults w = [] -> generatedKeys w -> routeHistory w <> [] ->
  savingsReferToRoutes w ->
  ∃ out w1 w2,
    saveRouteMutation input w = (Returns out, w1) ∧
    In {| id := routeHistoryNextId w; route := routeRecord input |} (routeHistory w1) ∧
    getRouteSavingsByRouteId (routeHistoryNextId w) w1 = (Returns None, w2).
Proof.
  intros Hdb Hfaults Hkeys Hrows Hrefs.
  pose proof (savings_below_next_id w Hrefs) as Hfresh.
  rewrite (saveRouteMutation_healthy input w Hdb Hfaults).
  destruct (leastId (routeHistory w)) as [m|] eqn:Hleast.
  2:{ destruct (routeHistory w); [contradiction|discriminate]. }
  destruct (leastId_in _ _ Hleast) as (r & Hin & Hid).
  unfold generatedKeys in Hkeys. rewrite Forall_forall in Hkeys.
  apply list_elem_of_In in Hin. specialize (Hkeys r Hin). rewrite Hid in Hkeys.
  simpl. replace (Nat.min m (routeHistoryNextId w)) with m by lia.
  destruct m as [|n]; [lia|].
  eexists _, _, _. split; [reflexivity|]. split.
  - simpl. apply in_or_app. right. now left.
  - rewrite getRouteSavingsByRouteId_run. simpl.
    rewrite filter_no_routeId; [reflexivity|].
    apply Forall_app. split; [exact Hfresh|].
    constructor; [simpl; lia|constructor].
Qed.

(** X10: on a database that answers, whose route table is empty and
    whose savings records refer to written routes, the savings that
    getRouteSavingsByRouteId returns for the identifier returned by the
    saveRoute mutation are the savings of the input of the mutation. *)
Theorem first_route_savings_are_read_back (input : SaveRouteInput) (w : World) :
  hasDatabase w = true -> faults w = [] -> routeHistory w = [] ->
  1 <= routeHistoryNextId w -> savingsReferToRoutes w ->
  ∃ w1 w2,
    saveRouteMutation input w =
      (Returns {| success := true; routeId_out := routeHistoryNextId w |}, w1) ∧
    getRouteSavingsByRouteId (routeHistoryNextId w) w1 =
      (Returns (Some {| savingsId := routeSavingsNextId w;
                        savings := savingsRecord (routeHistoryNextId w) input |}), w2).
Proof.
  intros Hdb Hfaults Hrows Hnext Hrefs.
  pose proof (savings_below_next_id w Hrefs) as Hfresh.
  rewrite (saveRouteMutation_healthy input w Hdb Hfaults), Hrows. simpl.
  destruct (routeHistoryNextId w) as [|n] eqn:Hn; [lia|].
  eexists _, _. split; [reflexivity|].
  rewrite getRouteSavingsByRouteId_run. simpl.
  rewrite (filter_fresh_routeId (routeSavings w)
             {| savingsId := routeSavingsNextId w; savings := savingsRecord (S n) input |}
             (S n) eq_refl Hfresh).
  reflexivity.
Qed.

End SavingAndReading.

Lemma generatedKeys_worldWithOneRoute : generatedKeys worldWithOneRoute.
Proof. repeat constructor. Defined.

Lemma saveRoute_on_empty_table_links_new_route_witness :
  ∃ w',
    saveRouteMutation (runtime := exampleRuntime) exampleInput emptyWorld =
      (Returns {| success := true; routeId_out := Db.routeHistoryNextId emptyWorld |}, w') ∧
    Db.routeHistory w' =
      [{| Db.id := Db.routeHistoryNextId emptyWorld;
          Db.route := routeRecord (runtime := exampleRuntime) exampleInput |}] ∧
    Db.routeSavings w' =
      Db.routeSavings emptyWorld ++
      [{| Db.savingsId := Db.routeSavingsNextId emptyWorld;
          Db.savings := savingsRecord (Db.routeHistoryNextId emptyWorld) exampleInput |}] ∧
    routeWrites w' = S (routeWrites emptyWorld) ∧
    savingsWrites w' = S (savingsWrites emptyWorld).
Proof.
  apply (saveRoute_on_empty_table_links_new_route (runtime := exampleRuntime)
           exampleInput emptyWorld); reflexivity.
Defined.

Lemma saveRoute_on_earlier_routes_links_the_oldest_witness :
  ∃ m w',
    leastId (Db.routeHistory worldWithOneRoute) = Some m ∧
    m <> Db.routeHistoryNextId worldWithOneRoute ∧
    saveRouteMutation (runtime := exampleRuntime) exampleInput worldWithOneRoute =
      (Returns {| success := true; routeId_out := m |}, w') ∧
    Db.routeHistory w' =
      Db.routeHistory worldWithOneRoute ++
      [{| Db.id := Db.routeHistoryNextId worldWithOneRoute;
          Db.route := routeRecord (runtime := exampleRuntime) exampleInput |}] ∧
    Db.routeSavings w' =
      Db.routeSavings worldWithOneRoute ++
      [{| Db.savingsId := Db.routeSavingsNextId worldWithOneRoute;
          Db.savings := savingsRecord m exampleInput |}].
Proof.
  apply (saveRoute_on_earlier_routes_links_the_oldest (runtime := exampleRuntime)
           exampleInput worldWithOneRoute).
  - reflexivity.
  - reflexivity.
  - exact generatedKeys_worldWithOneRoute.
  - discriminate.
Defined.

Lemma saveRoute_keeps_route_when_savings_fail_witness :
  ∃ e w',
    saveRouteMutation (runtime := exampleRuntime) exampleInput worldFailingThirdStatement =
      (Throws e, w') ∧
    Db.routeHistory w' =
      Db.routeHistory worldFailingThirdStatement ++
      [{| Db.id := Db.routeHistoryNextId worldFailingThirdStatement;
          Db.route := routeRecord (runtime := exampleRuntime) exampleInput |}] ∧
    Db.routeSavings w' = Db.routeSavings worldFailingThirdStatement ∧
    savingsWrites w' = S (savingsWrites worldFailingThirdStatement).
Proof.
  apply (saveRoute_keeps_route_when_savings_fail (runtime := exampleRuntime)
           exampleInput worldFailingThirdStatement []).
  - reflexivity.
  - reflexivity.
  - repeat constructor.
  - simpl. lia.
Defined.

Lemma saved_savings_are_read_back_witness :
  ∃ w1 w2,
    Db.saveRouteSavings (savingsRecord 2 exampleInput) worldWithOneRoute = (Returns true, w1) ∧
    Reports.getRouteSavingsByRouteId (Db.routeId (savingsRecord 2 exampleInput)) w1 =
      (Returns (Some {| Db.savingsId := Db.routeSavingsNextId worldWithOneRoute;
                        Db.savings := savingsRecord 2 exampleInput |}), w2).
Proof.
  apply (saved_savings_are_read_back (savingsRecord 2 exampleInput) worldWithOneRoute).
  - reflexivity.
  - reflexivity.
  - repeat constructor. simpl. lia.
Defined.

Lemma new_route_has_no_savings_after_earlier_routes_witness :
  ∃ out w1 w2,
    saveRouteMutation (runtime := exampleRuntime) exampleInput worldWithOneRoute =
      (Returns out, w1) ∧
    In {| Db.id := Db.routeHistoryNextId worldWithOneRoute;
          Db.route := routeRecord (runtime := exampleRuntime) exampleInput |}
       (Db.routeHistory w1) ∧
    Reports.getRouteSavingsByRouteId (Db.routeHistoryNextId worldWithOneRoute) w1 =
      (Returns None, w2).
Proof.
  apply (new_route_has_no_savings_after_earlier_routes (runtime := exampleRuntime)
           exampleInput worldWithOneRoute).
  - reflexivity.
  - reflexivity.
  - exact generatedKeys_worldWithOneRoute.
  - discriminate.
  - repeat constructor.
Defined.

Lemma first_route_savings_are_read_back_witness :
  ∃ w1 w2,
    saveRouteMutation (runtime := exampleRuntime) exampleInput emptyWorld =
      (Returns {| success := true; routeId_out := Db.routeHistoryNextId emptyWorld |}, w1) ∧
    Reports.getRouteSavingsByRouteId (Db.routeHistoryNextId emptyWorld) w1 =
      (Returns (Some {| Db.savingsId := Db.routeSavingsNextId emptyWorld;
                        Db.savings := savingsRecord (Db.routeHistoryNextId emptyWorld)
                                                    exampleInput |}), w2).
Proof.
  apply (first_route_savings_are_read_back (runtime := exampleRuntime) exampleInput emptyWorld).
  - reflexivity.
  - reflexivity.
  - reflexivity.
  - simpl. lia.
  - constructor.
Defined.

(** ** Accounts *)

Section AccountsProperties.

Context {library : Accounts.Library}.

Import Accounts.

(** What [getUserByEmail] and [getUserById] compute, case by case. *)
Lemma getUserByEmail_run (email : string) (w : World) :
  getUserByEmail email w =
    if hasDatabase w then
      (match faults w with
       | true :: _ => Throws (Error "query failed")
       | _ => Returns (head (List.filter (emailMatches email) (users w)))
       end, afterStatement w)
    else (Returns None, w).
Proof.
  unfold getUserByEmail, bind, getDb, send, ret. simpl.
  destruct (hasDatabase w); simpl; [|reflexivity].
  destruct (faults w) as [|[|] flt]; simpl; try reflexivity;
    now destruct (List.filter _ _).
Qed.

Lemma getUserById_run (id : nat) (w : World) :
  getUserById id w =
    if hasDatabase w then
      (match faults w with
       | true :: _ => Throws (Error "query failed")
       | _ => Returns (head (List.filter (fun r => Nat.eqb (UserRow.id r) id) (users w)))
       end, afterStatement w)
    else (Returns None, w).
Proof.
  unfold getUserById, bind, getDb, send, ret. simpl.
  destruct (hasDatabase w); simpl; [|reflexivity].
  destruct (faults w) as [|[|] flt]; simpl; try reflexivity;
    now destruct (List.filter _ _).
Qed.

Lemma getUserByEmail_keeps (email : string) (w w' : World) (r : Outcome (option UserRow.t)) :
  getUserByEmail email w = (r, w') ->
  users w' = users w ∧ usersNextId w' = usersNextId w ∧
  cookies w' = cookies w ∧ salts w' = salts w ∧ clock w' = clock w ∧
  hasDatabase w' = hasDatabase w.
Proof.
  rewrite getUserByEmail_run. destruct (hasDatabase w) eqn:Hdb; intros [= <- <-];
    repeat split; simpl; congruence.
Qed.

(** The end of both mutations. *)
Lemma openSession_run (user : UserRow.t) (w : World) :
  openSession user w =
    match jwt_sign {| userId := UserRow.id user; payloadEmail := UserRow.email user;
                      payloadRole := UserRow.role user |} (clock w) with
    | inl e => (Throws e, w)
    | inr token => (Returns (summary user), afterCall (sessionCookie token) w)
    end.
Proof.
  unfold openSession, bind, generateToken, setTokenCookie, call, lift, ret.
  now destruct (jwt_sign _ _).
Qed.

(** What [login] does once the user has been looked up. *)
Lemma login_run (input : LoginInput) (w : World) :
  login input w =
    match getUserByEmail (loginEmail input) w with
    | (Returns found, w1) =>
        if rejected (loginPassword input) found
        then (Throws (Error "Invalid email or password"), w1)
        else match found with
             | Some user => openSession user w1
             | None => (Throws (Error "Invalid email or password"), w1)
             end
    | (Throws e, w1) => (Throws e, w1)
    | (OutOfFuel, w1) => (OutOfFuel, w1)
    end.
Proof.
  unfold login, bind. destruct (getUserByEmail (loginEmail input) w) as [[found|e|] w1];
    try reflexivity.
  destruct found as [user|]; simpl; [|reflexivity].
  destruct (UserRow.passwordHash user) as [hash|]; [|reflexivity].
  destruct (String.eqb hash ""); simpl; [reflexivity|].
  unfold verifyPassword, tryCatch, lift, ret, throw.
  destruct (bcrypt_compare (loginPassword input) hash) as [e|[|]]; reflexivity.
Qed.

(** X11: login never writes to the table of users, and it makes a call
    on the response only when it succeeds: then the one call it makes
    sets the session cookie; when it throws, the response is as it
    was. *)
Theorem login_sets_cookie_only_on_success (input : LoginInput) (w : World) :
  users (snd (login input w)) = users w ∧
  match fst (login input w) with
  | Returns out => ∃ token, cookies (snd (login input w)) = sessionCookie token :: cookies w
  | _ => cookies (snd (login input w)) = cookies w
  end.
Proof.
  rewrite login_run.
  destruct (getUserByEmail (loginEmail input) w) as [[found|e|] w1] eqn:Hget;
    destruct (getUserByEmail_keeps _ _ _ _ Hget) as (Hu & _ & Hc & _);
    try (split; assumption).
  destruct (rejected (loginPassword input) found); [split; assumption|].
  destruct found as [user|]; [|split; assumption].
  rewrite openSession_run.
  destruct (jwt_sign _ _) as [e|token]; simpl; [split; assumption|].
  split; [assumption|]. exists token. now rewrite Hc.
Qed.

(** X12: login rejects in one and the same way an email that no user
    has, a user without a password hash, and a password that bcrypt
    does not accept or on which bcrypt throws: the error
    "Invalid email or password", in the world that the lookup left. *)
Theorem login_rejections_are_indistinguishable
    (input : LoginInput) (w w1 : World) (found : option UserRow.t) :
  getUserByEmail (loginEmail input) w = (Returns found, w1) ->
  rejected (loginPassword input) found = true ->
  login input w = (Throws (Error "Invalid email or password"), w1).
Proof.
  intros Hget Hrej. rewrite login_run, Hget, Hrej. reflexivity.
Qed.

Lemma head_filter_exists {A : Type} (f : A -> bool) (l : list A) :
  existsb f l = true -> ∃ x, head (List.filter f l) = Some x.
Proof.
  induction l as [|a l IH]; simpl; [discriminate|].
  destruct (f a); simpl; [now exists a|exact IH].
Qed.

Lemma filter_not_exists {A : Type} (f : A -> bool) (l : list A) :
  existsb f l = false -> List.filter f l = [].
Proof.
  induction l as [|a l IH]; simpl; [reflexivity|].
  destruct (f a); simpl; [discriminate|exact IH].
Qed.

Lemma truthy_value (s : string) : s <> "" -> truthy (Value s) = Some s.
Proof. intros Hs. simpl. apply String.eqb_neq in Hs. now rewrite Hs. Qed.

(** X13: register refuses an email that a user already has: on a
    database that answers, it throws "Email already registered" after
    the lookup alone; no row is written or changed, no salt is drawn
    and no call is made on the response. *)
Theorem register_refuses_existing_email (input : RegisterInput) (w : World) :
  hasDatabase w = true ->
  hd false (faults w) = false ->
  existsb (emailMatches (registerEmail input)) (users w) = true ->
  register input w = (Throws (Error "Email already registered"), afterStatement w).
Proof.
  intros Hdb Hfault Hexists. unfold register, bind.
  rewrite getUserByEmail_run, Hdb.
  destruct (head_filter_exists _ _ Hexists) as [user ->].
  destruct (faults w) as [|[|] flt]; simpl in Hfault; try discriminate; reflexivity.
Qed.

Local Ltac world :=
  unfold afterStatement, afterSalt, afterCall, setUsers;
  cbn [hasDatabase users usersNextId faults salts clock cookies tl hd].

Lemma bind_run {A B : Type} (m : M A) (k : A -> M B) (w : World) :
  bind m k w =
    match m w with
    | (Returns a, w') => k a w'
    | (Throws e, w') => (Throws e, w')
    | (OutOfFuel, w') => (OutOfFuel, w')
    end.
Proof. reflexivity. Qed.

(** What [upsertUser] does when it is given an email and a hash. *)
Lemma upsertUser_run (user : Insert.t) (w : World) (email hash : string) :
  truthy (Insert.email user) = Some email ->
  truthy (Insert.passwordHash user) = Some hash ->
  upsertUser user w =
    if hasDatabase w then
      match faults w with
      | true :: _ => (Throws (Error "query failed"), afterStatement w)
      | _ =>
          (Returns tt,
           if existsb (emailMatches email) (users w)
           then setUsers (afterStatement w)
                  (updateFirst email (buildUpdateSet user (clock w)) (users w))
                  (usersNextId w)
           else setUsers (afterStatement w)
                  (users w ++ [insertedRow (usersNextId w)
                                 (buildValues email hash user (clock w))])
                  (S (usersNextId w)))
      end
    else (Returns tt, w).
Proof.
  intros He Hh. unfold upsertUser. rewrite He, Hh.
  rewrite bind_run. unfold getDb. cbv beta iota.
  destruct (hasDatabase w); cbn [negb]; cbv iota; [|reflexivity].
  rewrite bind_run. unfold newDate. cbv beta iota.
  unfold insertOnDuplicateKeyUpdate. rewrite bind_run. unfold send.
  destruct (faults w) as [|[|] flt]; cbv beta iota; try reflexivity;
    cbn [users afterStatement usersNextId];
    destruct (existsb _ (users w)); reflexivity.
Qed.

(** X14: without a database, register hashes the password and then
    throws "Failed to create user": upsertUser returns without writing
    and without an error, and the user is not found afterwards.  No
    call is made on the response. *)
Theorem register_without_database (input : RegisterInput) (w : World) (hash : string) :
  hasDatabase w = false ->
  registerEmail input <> "" ->
  bcrypt_hash (registerPassword input) SALT_ROUNDS (hd "" (salts w)) = inr hash ->
  hash <> "" ->
  register input w = (Throws (Error "Failed to create user"), afterSalt w).
Proof.
  intros Hdb Hemail Hhash Hnonempty. unfold register.
  rewrite bind_run, getUserByEmail_run, Hdb. cbv beta iota.
  rewrite bind_run. unfold hashPassword. rewrite Hhash. unfold lift. cbv beta iota.
  rewrite bind_run. unfold newDate. cbv beta iota.
  rewrite bind_run.
  rewrite (upsertUser_run _ _ (registerEmail input) hash)
    by (cbn [Insert.email Insert.passwordHash]; now apply truthy_value).
  cbn [hasDatabase afterSalt]. rewrite Hdb. cbv beta iota.
  rewrite bind_run, getUserByEmail_run. cbn [hasDatabase afterSalt]. rewrite Hdb.
  reflexivity.
Qed.

(** The row that register writes. *)
Lemma register_inserts (input : RegisterInput) (w : World) (hash : string) :
  hasDatabase w = true ->
  faults w = [] ->
  existsb (emailMatches (registerEmail input)) (users w) = false ->
  sameEmail (registerEmail input) (registerEmail input) = true ->
  registerEmail input <> "" ->
  bcrypt_hash (registerPassword input) SALT_ROUNDS (hd "" (salts w)) = inr hash ->
  hash <> "" ->
  let row := {| UserRow.id := usersNextId w;
                UserRow.email := Some (registerEmail input);
                UserRow.passwordHash := Some hash;
                UserRow.name := registerName input;
                UserRow.companyName := registerCompanyName input;
                UserRow.loginMethod := Some "jwt";
                UserRow.role := registerRole input;
                UserRow.lastSignedIn := clock w |} in
  register input w =
    openSession row
      {| hasDatabase := true;
         users := users w ++ [row];
         usersNextId := S (usersNextId w);
         faults := [];
         salts := tl (salts w);
         clock := clock w;
         cookies := cookies w |}.
Proof.
  intros Hdb Hfaults Hfresh Hrefl Hemail Hhash Hnonempty row.
  destruct w as [db us next flt sl clk cks].
  cbn [hasDatabase faults users salts clock usersNextId cookies] in *. subst db flt.
  unfold register.
  rewrite bind_run, getUserByEmail_run. world.
  rewrite (filter_not_exists _ _ Hfresh). cbn [head]. cbv beta iota.
  rewrite bind_run. unfold hashPassword. world. rewrite Hhash. unfold lift.
  cbv beta iota.
  rewrite bind_run. unfold newDate. cbv beta iota.
  rewrite bind_run.
  rewrite (upsertUser_run _ _ (registerEmail input) hash)
    by (cbn [Insert.email Insert.passwordHash]; now apply truthy_value).
  world. rewrite Hfresh. cbv beta iota.
  rewrite bind_run, getUserByEmail_run. world.
  rewrite List.filter_app, (filter_not_exists _ _ Hfresh).
  cbn [List.filter app emailMatches insertedRow UserRow.email buildValues Values.email].
  rewrite Hrefl. cbn [head]. cbv beta iota.
  unfold row. destruct (registerName input), (registerCompanyName input); reflexivity.
Qed.

(** X15: on a database that answers and holds no user for the email,
    register writes one row under the next generated identifier, with
    the email, the hash that bcrypt gave for the password (never the
    password), the name, the company name and the role of the input,
    the login method "jwt" and the date of the clock; it returns the
    summary of that row and sets the session cookie to the token signed
    for the identifier, the email and the role of the row. *)
Theorem register_creates_user (input : RegisterInput) (w : World) (hash token : string) :
  hasDatabase w = true ->
  faults w = [] ->
  existsb (emailMatches (registerEmail input)) (users w) = false ->
  sameEmail (registerEmail input) (registerEmail input) = true ->
  registerEmail input <> "" ->
  bcrypt_hash (registerPassword input) SALT_ROUNDS (hd "" (salts w)) = inr hash ->
  hash <> "" ->
  jwt_sign {| userId := usersNextId w;
              payloadEmail := Some (registerEmail input);
              payloadRole := registerRole input |} (clock w) = inr token ->
  let row := {| UserRow.id := usersNextId w;
                UserRow.email := Some (registerEmail input);
                UserRow.passwordHash := Some hash;
                UserRow.name := registerName input;
                UserRow.companyName := registerCompanyName input;
                UserRow.loginMethod := Some "jwt";
                UserRow.role := registerRole input;
                UserRow.lastSignedIn := clock w |} in
  fst (register input w) = Returns (summary row) ∧
  users (snd (register input w)) = users w ++ [row] ∧
  cookies (snd (register input w)) = sessionCookie token :: cookies w.
Proof.
  intros Hdb Hfaults Hfresh Hrefl Hemail Hhash Hnonempty Htoken row.
  rewrite (register_inserts input w hash Hdb Hfaults Hfresh Hrefl Hemail Hhash Hnonempty).
  rewrite openSession_run. cbn [UserRow.id UserRow.email UserRow.role clock]. rewrite Htoken.
  repeat split.
Qed.

(** X16: a user who has registered can log in: on a database that
    answers and held no user for the email, when bcrypt accepts the
    password against the hash that it gave for it, login with the email
    and the password of the registration succeeds in the world that
    register left, and returns the same user. *)
Theorem register_then_login (input : RegisterInput) (w : World) (hash token : string) :
  hasDatabase w = true ->
  faults w = [] ->
  existsb (emailMatches (registerEmail input)) (users w) = false ->
  sameEmail (registerEmail input) (registerEmail input) = true ->
  registerEmail input <> "" ->
  bcrypt_hash (registerPassword input) SALT_ROUNDS (hd "" (salts w)) = inr hash ->
  hash <> "" ->
  bcrypt_compare (registerPassword input) hash = inr true ->
  jwt_sign {| userId := usersNextId w;
              payloadEmail := Some (registerEmail input);
              payloadRole := registerRole input |} (clock w) = inr token ->
  ∃ out,
    fst (register input w) = Returns out ∧
    fst (login {| loginEmail := registerEmail input;
                  loginPassword := registerPassword input |}
               (snd (register input w))) = Returns out.
Proof.
  intros Hdb Hfaults Hfresh Hrefl Hemail Hhash Hnonempty Hcompare Htoken.
  rewrite (register_inserts input w hash Hdb Hfaults Hfresh Hrefl Hemail Hhash Hnonempty).
  rewrite openSession_run. cbn [UserRow.id UserRow.email UserRow.role clock]. rewrite Htoken.
  eexists. split; [reflexivity|]. cbn [snd].
  rewrite login_run, getUserByEmail_run.
  cbn [hasDatabase afterCall faults users loginEmail loginPassword].
  rewrite List.filter_app, (filter_not_exists _ _ Hfresh).
  cbn [List.filter app emailMatches UserRow.email]. rewrite Hrefl. cbn [head].
  unfold rejected. cbn [UserRow.passwordHash]. rewrite Hcompare.
  apply String.eqb_neq in Hnonempty. rewrite Hnonempty. cbn [orb].
  rewrite openSession_run. cbn [UserRow.id UserRow.email UserRow.role clock afterStatement afterCall].
  rewrite Htoken. reflexivity.
Qed.

Lemma updateFirst_credentials (e : string) (updateSet : UpdateSet.t) (rows : list UserRow.t) :
  map credentials (updateFirst e updateSet rows) = map credentials rows.
Proof.
  induction rows as [|r rows IH]; simpl; [reflexivity|].
  destruct (emailMatches e r); simpl; [reflexivity|]. now rewrite IH.
Qed.

(** X17: upsertUser never changes the identifier, the email or the
    password hash of a user that the table holds, whatever it is given
    and whether it updates, inserts, fails or finds no database: the
    credentials of the rows that were there stay as they were, in
    their order, followed by at most one new row. *)
Theorem upsertUser_keeps_credentials (user : Insert.t) (w : World) :
  ∃ added,
    map credentials (users (snd (upsertUser user w))) = map credentials (users w) ++ added ∧
    length added <= 1.
Proof.
  assert (Hsame : ∃ added : list (nat * option string * option string),
             map credentials (users w) = map credentials (users w) ++ added ∧
             length added <= 1).
  { exists []. split; [now rewrite app_nil_r|simpl; lia]. }
  destruct (truthy (Insert.email user)) as [email|] eqn:He.
  2:{ unfold upsertUser. rewrite He. exact Hsame. }
  destruct (truthy (Insert.passwordHash user)) as [hash|] eqn:Hh.
  2:{ unfold upsertUser. rewrite He, Hh. exact Hsame. }
  rewrite (upsertUser_run user w email hash He Hh).
  destruct (hasDatabase w); [|exact Hsame].
  assert (Hwritten : ∃ added : list (nat * option string * option string),
            map credentials
              (users (if existsb (emailMatches email) (users w)
                      then setUsers (afterStatement w)
                             (updateFirst email (buildUpdateSet user (clock w)) (users w))
                             (usersNextId w)
                      else setUsers (afterStatement w)
                             (users w ++ [insertedRow (usersNextId w)
                                            (buildValues email hash user (clock w))])
                             (S (usersNextId w)))) =
            map credentials (users w) ++ added ∧
            length added <= 1).
  { destruct (existsb (emailMatches email) (users w)); world.
    - rewrite updateFirst_credentials. exact Hsame.
    - eexists [_]. rewrite map_app. split; [reflexivity|simpl; lia]. }
  destruct (faults w) as [|[|] flt]; cbn [snd]; [exact Hwritten|exact Hsame|exact Hwritten].
Qed.

Lemma authenticateRequest_run (token : Field string) (w : World) :
  authenticateRequest token w =
    match truthy token with
    | None => (Returns None, w)
    | Some t =>
        match jwt_verify t with
        | inl _ => (Returns None, w)
        | inr payload =>
            if hasDatabase w then
              (Returns (match faults w with
                        | true :: _ => None
                        | _ => head (List.filter
                                       (fun r => Nat.eqb (UserRow.id r) (userId payload)) (users w))
                        end), afterStatement w)
            else (Returns None, w)
        end
    end.
Proof.
  unfold authenticateRequest, tryCatch. destruct (truthy token) as [t|]; [|reflexivity].
  rewrite bind_run. unfold lift. destruct (jwt_verify t) as [e|payload]; [reflexivity|].
  rewrite getUserById_run. destruct (hasDatabase w); [|reflexivity].
  destruct (faults w) as [|[|] flt]; reflexivity.
Qed.

Lemma head_filter_id (rows : list UserRow.t) (id : nat) (user : UserRow.t) :
  head (List.filter (fun r => Nat.eqb (UserRow.id r) id) rows) = Some user ->
  In user rows ∧ UserRow.id user = id.
Proof.
  destruct (List.filter _ rows) as [|x l] eqn:Hf; intros [= <-].
  assert (Hin : In x (List.filter (fun r => Nat.eqb (UserRow.id r) id) rows))
    by (rewrite Hf; now left).
  apply filter_In in Hin. destruct Hin as [Hin Heq]. split; [exact Hin|].
  now apply Nat.eqb_eq in Heq.
Qed.

(** X18: authenticateRequest never throws and never writes: it returns
    null without a query when the request has no token, and null when
    the token does not verify; a user that it returns is a row of the
    table whose identifier is the one of the verified token. *)
Theorem authenticateRequest_never_throws (token : Field string) (w : World) :
  ∃ r,
    fst (authenticateRequest token w) = Returns r ∧
    users (snd (authenticateRequest token w)) = users w ∧
    cookies (snd (authenticateRequest token w)) = cookies w ∧
    (truthy token = None -> r = None ∧ snd (authenticateRequest token w) = w) ∧
    (∀ t e, truthy token = Some t -> jwt_verify t = inl e -> r = None) ∧
    (∀ user, r = Some user ->
             In user (users w) ∧
             ∃ t payload, truthy token = Some t ∧ jwt_verify t = inr payload ∧
                          UserRow.id user = userId payload).
Proof.
  rewrite authenticateRequest_run.
  destruct (truthy token) as [t|] eqn:Htoken.
  2:{ exists None. repeat split; discriminate. }
  destruct (jwt_verify t) as [e|payload] eqn:Hverify.
  { exists None. repeat split; discriminate. }
  destruct (hasDatabase w).
  2:{ exists None. repeat split; discriminate. }
  eexists. split; [reflexivity|]. split; [reflexivity|]. split; [reflexivity|].
  split; [discriminate|]. split.
  - intros t' e [= <-]. congruence.
  - intros user Huser. cbn [fst] in Huser.
    assert (Hhead : head (List.filter (fun r => Nat.eqb (UserRow.id r) (userId payload))
                                      (users w)) = Some user).
    { destruct (faults w) as [|[|] flt]; [exact Huser|discriminate|exact Huser]. }
    destruct (head_filter_id _ _ _ Hhead) as [Hin Hid].
    split; [exact Hin|]. exists t, payload. repeat split; assumption.
Qed.

End AccountsProperties.

(** ** Updating a user *)

Section UpdatingAUser.

Context {library : Accounts.Library}.

Import Accounts.

Lemma updateFirst_at (e : string) (updateSet : UpdateSet.t)
    (before after : list UserRow.t) (r : UserRow.t) :
  existsb (emailMatches e) before = false ->
  emailMatches e r = true ->
  updateFirst e updateSet (before ++ r :: after) = before ++ updatedRow updateSet r :: after.
Proof.
  intros Hbefore Hr. induction before as [|b before IH]; simpl in *.
  - now rewrite Hr.
  - destruct (emailMatches e b); [discriminate|]. now rewrite IH.
Qed.

(** X21: on a database that answers, upsertUser given the email of a
    user of the table changes that one row and no other, and in it the
    fields that it is given only: a name, company name or login method
    that is undefined in the input keeps its value, one that is null is
    cleared, one that has a value takes it; the role and the date of
    the last sign-in are replaced when given.  When nothing at all is
    given, the date of the last sign-in becomes the current date.  The
    identifier, the email and the password hash of the row stay. *)
Theorem upsertUser_updates_given_fields
    (user : Insert.t) (w : World) (email hash : string)
    (before after : list UserRow.t) (r : UserRow.t) :
  truthy (Insert.email user) = Some email ->
  truthy (Insert.passwordHash user) = Some hash ->
  hasDatabase w = true ->
  hd false (faults w) = false ->
  users w = before ++ r :: after ->
  existsb (emailMatches email) before = false ->
  emailMatches email r = true ->
  fst (upsertUser user w) = Returns tt ∧
  users (snd (upsertUser user w)) =
    before ++
    {| UserRow.id := UserRow.id r;
       UserRow.email := UserRow.email r;
       UserRow.passwordHash := UserRow.passwordHash r;
       UserRow.name := kept (Insert.name user) (UserRow.name r);
       UserRow.companyName := kept (Insert.companyName user) (UserRow.companyName r);
       UserRow.loginMethod := kept (Insert.loginMethod user) (UserRow.loginMethod r);
       UserRow.role := match Insert.role user with Some v => v | None => UserRow.role r end;
       UserRow.lastSignedIn :=
         match Insert.lastSignedIn user with
         | Some d => d
         | None => if nothingGiven user then clock w else UserRow.lastSignedIn r
         end |} :: after.
Proof.
  intros He Hh Hdb Hfault Husers Hbefore Hr.
  rewrite (upsertUser_run user w email hash He Hh), Hdb.
  assert (Hexists : existsb (emailMatches email) (users w) = true).
  { rewrite Husers, existsb_app. simpl. rewrite Hr. now rewrite orb_true_r. }
  rewrite Hexists.
  assert (Hrows : users (setUsers (afterStatement w)
                           (updateFirst email (buildUpdateSet user (clock w)) (users w))
                           (usersNextId w)) =
                  before ++ updatedRow (buildUpdateSet user (clock w)) r :: after).
  { unfold setUsers. cbn [users]. rewrite Husers. now apply updateFirst_at. }
  assert (Hrow : updatedRow (buildUpdateSet user (clock w)) r =
                 {| UserRow.id := UserRow.id r;
                    UserRow.email := UserRow.email r;
                    UserRow.passwordHash := UserRow.passwordHash r;
                    UserRow.name := kept (Insert.name user) (UserRow.name r);
                    UserRow.companyName := kept (Insert.companyName user) (UserRow.companyName r);
                    UserRow.loginMethod := kept (Insert.loginMethod user) (UserRow.loginMethod r);
                    UserRow.role := match Insert.role user with Some v => v | None => UserRow.role r end;
                    UserRow.lastSignedIn :=
                      match Insert.lastSignedIn user with
                      | Some d => d
                      | None => if nothingGiven user then clock w else UserRow.lastSignedIn r
                      end |}).
  { unfold updatedRow, buildUpdateSet, UpdateSet.isEmpty, kept, nothingGiven.
    destruct (Insert.name user), (Insert.companyName user), (Insert.loginMethod user),
      (Insert.role user), (Insert.lastSignedIn user); reflexivity. }
  destruct (faults w) as [|[|] flt]; simpl in Hfault; try discriminate;
    cbn [fst snd]; rewrite Hrows, Hrow; split; reflexivity.
Qed.

End UpdatingAUser.

Lemma upsertUser_updates_given_fields_witness :
  fst (Accounts.upsertUser (library := exampleLibrary) renameAna oneAccount) = Returns tt ∧
  Accounts.users (snd (Accounts.upsertUser (library := exampleLibrary) renameAna oneAccount)) =
    [] ++
    {| Accounts.UserRow.id := 1;
       Accounts.UserRow.email := Some "ana@example.com";
       Accounts.UserRow.passwordHash := Some "$secret";
       Accounts.UserRow.name := Some "Ana Maria";
       Accounts.UserRow.companyName := None;
       Accounts.UserRow.loginMethod := Some "jwt";
       Accounts.UserRow.role := Accounts.RoleUser;
       Accounts.UserRow.lastSignedIn := 5 |} :: [].
Proof.
  apply (upsertUser_updates_given_fields (library := exampleLibrary) renameAna oneAccount
           "ana@example.com" "$other" [] [] ana); reflexivity.
Defined.

Lemma login_rejections_are_indistinguishable_witness :
  Accounts.login (library := exampleLibrary) loginAnaWrongPassword oneAccount =
    (Throws (Error "Invalid email or password"), Accounts.afterStatement oneAccount).
Proof.
  apply (login_rejections_are_indistinguishable (library := exampleLibrary)
           loginAnaWrongPassword oneAccount (Accounts.afterStatement oneAccount) (Some ana));
    reflexivity.
Defined.

Lemma register_refuses_existing_email_witness :
  Accounts.register (library := exampleLibrary) registerAna oneAccount =
    (Throws (Error "Email already registered"), Accounts.afterStatement oneAccount).
Proof.
  apply (register_refuses_existing_email (library := exampleLibrary) registerAna oneAccount);
    reflexivity.
Defined.

Lemma register_without_database_witness :
  Accounts.register (library := exampleLibrary) registerAna accountsWithoutDatabase =
    (Throws (Error "Failed to create user"), Accounts.afterSalt accountsWithoutDatabase).
Proof.
  apply (register_without_database (library := exampleLibrary) registerAna
           accountsWithoutDatabase "$secret").
  - reflexivity.
  - discriminate.
  - reflexivity.
  - discriminate.
Defined.

Lemma register_creates_user_witness :
  let row := {| Accounts.UserRow.id := 1;
                Accounts.UserRow.email := Some "ana@example.com";
                Accounts.UserRow.passwordHash := Some "$secret";
                Accounts.UserRow.name := Some "Ana";
                Accounts.UserRow.companyName := None;
                Accounts.UserRow.loginMethod := Some "jwt";
                Accounts.UserRow.role := Accounts.RoleUser;
                Accounts.UserRow.lastSignedIn := 9 |} in
  fst (Accounts.register (library := exampleLibrary) registerAna noAccounts) =
    Returns (Accounts.summary row) ∧
  Accounts.users (snd (Accounts.register (library := exampleLibrary) registerAna noAccounts)) =
    Accounts.users noAccounts ++ [row] ∧
  Accounts.cookies (snd (Accounts.register (library := exampleLibrary) registerAna noAccounts)) =
    Accounts.sessionCookie (library := exampleLibrary) "token" :: Accounts.cookies noAccounts.
Proof.
  apply (register_creates_user (library := exampleLibrary) registerAna noAccounts
           "$secret" "token").
  - reflexivity.
  - reflexivity.
  - reflexivity.
  - reflexivity.
  - discriminate.
  - reflexivity.
  - discriminate.
  - reflexivity.
Defined.

Lemma register_then_login_witness :
  ∃ out,
    fst (Accounts.register (library := exampleLibrary) registerAna noAccounts) = Returns out ∧
    fst (Accounts.login (library := exampleLibrary)
           {| Accounts.loginEmail := Accounts.registerEmail registerAna;
              Accounts.loginPassword := Accounts.registerPassword registerAna |}
           (snd (Accounts.register (library := exampleLibrary) registerAna noAccounts))) =
      Returns out.
Proof.
  apply (register_then_login (library := exampleLibrary) registerAna noAccounts
           "$secret" "token").
  - reflexivity.
  - reflexivity.
  - reflexivity.
  - reflexivity.
  - discriminate.
  - reflexivity.
  - discriminate.
  - reflexivity.
  - reflexivity.
Defined.

(** ** [decodePolyline] *)

Section PolylineProperties.

Import Polyline.

Local Open Scope Z_scope.

(** The example of the description of the format. *)
Example decodePolyline_example :
  decodePolyline 3 (codeUnits "_p~iF~ps|U_ulLnnqC_mqNvxq`@") =
    Some [((-120.2)%float, 38.5%float);
          ((-120.95)%float, 40.7%float);
          ((-126.453)%float, 43.252%float)].
Proof. vm_compute. reflexivity. Qed.

Lemma readGroups_length (rest : list Z) :
  ∀ result shift, (length (snd (readGroups rest result shift)) <= length rest)%nat.
Proof.
  induction rest as [|c rest IH]; intros result shift; simpl; [lia|].
  destruct (32 <=? c - 63); simpl; [|lia].
  specialize (IH (Z.lor result (shiftLeft (Z.land (c - 63) 31) shift)) (shift + 5)). lia.
Qed.

Lemma readGroups_consumes (c : Z) (rest : list Z) (result shift : Z) :
  (length (snd (readGroups (c :: rest) result shift)) <= length rest)%nat.
Proof.
  simpl. destruct (32 <=? c - 63); simpl; [|lia]. apply readGroups_length.
Qed.

Lemma decodeLoop_returns (fuel : nat) :
  ∀ (rest : list Z) (lat lng : float),
    (length rest <= 2 * fuel)%nat ->
    ∃ points, decodeLoop fuel rest lat lng = Some points ∧
              (2 * length points <= length rest + 1)%nat.
Proof.
  induction fuel as [|fuel IH]; intros rest lat lng Hfuel.
  - destruct rest; simpl in *; [|lia]. exists []. split; [reflexivity|simpl; lia].
  - destruct rest as [|c rest]; [exists []; split; [reflexivity|simpl; lia]|].
    cbn [decodeLoop].
    pose proof (readGroups_consumes c rest 0 0) as H1.
    destruct (readGroups (c :: rest) 0 0) as [result1 rest1]. cbn [snd] in H1.
    assert (H2 : (length (snd (readGroups rest1 0 0)) <= length rest1 - 1)%nat).
    { destruct rest1 as [|c1 rest1]; [simpl; lia|].
      replace (length (c1 :: rest1) - 1)%nat with (length rest1) by (simpl; lia).
      apply readGroups_consumes. }
    destruct (readGroups rest1 0 0) as [result2 rest2]. cbn [snd] in H2.
    destruct (IH rest2 (lat + toNumber (delta result1))%float
                 (lng + toNumber (delta result2))%float) as (points & -> & Hcount).
    { simpl in Hfuel. lia. }
    eexists. split; [reflexivity|]. simpl length. lia.
Qed.

(** X19: decodePolyline comes to an end on every string, also on one
    that is cut short or holds characters outside of the format: within
    one iteration for every two characters it returns a list of points,
    of which there are at most half the length of the string, rounded
    up. *)
Theorem decodePolyline_returns (fuel : nat) (encoded : list Z) :
  (length encoded <= 2 * fuel)%nat ->
  ∃ points, decodePolyline fuel encoded = Some points ∧
            (2 * length points <= length encoded + 1)%nat.
Proof. intros Hfuel. now apply decodeLoop_returns. Qed.

Lemma toInt32_small (z : Z) : - 2 ^ 31 <= z < 2 ^ 31 -> toInt32 z = z.
Proof. intros Hz. unfold toInt32. rewrite Z.mod_small; lia. Qed.

Lemma land_31_range (b : Z) : 0 <= Z.land b 31 < 32.
Proof.
  change 31 with (Z.ones 5). rewrite Z.land_ones by lia.
  apply Z.mod_pos_bound. lia.
Qed.

Lemma lor_disjoint (acc g s : Z) :
  0 <= s -> 0 <= acc < 2 ^ s -> Z.lor acc (Z.shiftl g s) = acc + Z.shiftl g s.
Proof.
  intros Hs Hacc. rewrite <- Z.add_lor_land.
  assert (Hland : Z.land acc (Z.shiftl g s) = 0).
  { apply Z.bits_inj'. intros n Hn. rewrite Z.land_spec, Z.bits_0.
    destruct (Z.lt_ge_cases n s) as [Hlt|Hge].
    - rewrite Z.shiftl_spec_low by assumption. apply andb_false_r.
    - rewrite <- (Z.mod_small acc (2 ^ s)) by assumption.
      rewrite Z.mod_pow2_bits_high by lia. reflexivity. }
  rewrite Hland. lia.
Qed.

(** One group of five bits joins the number read so far. *)
Lemma group_joins (acc b j : Z) :
  0 <= j <= 5 -> 0 <= acc < 2 ^ (5 * j) ->
  Z.lor acc (shiftLeft (Z.land b 31) (5 * j)) = acc + 2 ^ (5 * j) * Z.land b 31.
Proof.
  intros Hj Hacc. pose proof (land_31_range b) as Hg.
  unfold shiftLeft. rewrite Z.mod_small by lia.
  assert (Hpow : 0 < 2 ^ (5 * j) <= 2 ^ 25).
  { split; [apply Z.pow_pos_nonneg; lia|apply Z.pow_le_mono_r; lia]. }
  rewrite Z.shiftl_mul_pow2 by lia.
  rewrite toInt32_small by (change (2 ^ 31) with (64 * 2 ^ 25); nia).
  rewrite <- Z.shiftl_mul_pow2 by lia. rewrite lor_disjoint by lia.
  rewrite Z.shiftl_mul_pow2 by lia. lia.
Qed.

Lemma readGroups_chunk (chunk : list Z) :
  ∀ (j acc : Z) (rest : list Z),
    wellFormed chunk ->
    0 <= j -> j + Z.of_nat (length chunk) <= 6 ->
    0 <= acc < 2 ^ (5 * j) ->
    readGroups (chunk ++ rest) acc (5 * j) = (acc + 2 ^ (5 * j) * chunkValue chunk, rest).
Proof.
  induction chunk as [|c chunk IH]; intros j acc rest Hwf Hj Hlen Hacc; [destruct Hwf|].
  assert (Hj5 : 0 <= j <= 5) by (simpl length in Hlen; lia).
  cbn [app readGroups chunkValue]. rewrite (group_joins acc (c - 63) j Hj5 Hacc).
  pose proof (land_31_range (c - 63)) as Hg.
  destruct chunk as [|c' chunk].
  - simpl in Hwf. destruct (Z.leb_spec 32 (c - 63)); [lia|].
    cbn [chunkValue]. f_equal. lia.
  - destruct Hwf as [Hc Hwf]. destruct (Z.leb_spec 32 (c - 63)); [|lia].
    replace (5 * j + 5) with (5 * (j + 1)) by lia.
    assert (Hpow : 2 ^ (5 * (j + 1)) = 32 * 2 ^ (5 * j)).
    { replace (5 * (j + 1)) with (5 * j + 5) by lia.
      rewrite Z.pow_add_r by lia. change (2 ^ 5) with 32. lia. }
    rewrite (IH (j + 1) _ rest Hwf).
    + f_equal. rewrite Hpow. lia.
    + lia.
    + simpl length in *. lia.
    + rewrite Hpow. nia.
Qed.

Lemma readGroups_wellFormed (chunk rest : list Z) :
  wellFormed chunk -> (length chunk <= 6)%nat ->
  readGroups (chunk ++ rest) 0 0 = (chunkValue chunk, rest).
Proof.
  intros Hwf Hlen.
  pose proof (readGroups_chunk chunk 0 0 rest Hwf) as H.
  change (5 * 0) with 0 in H. change (2 ^ 0) with 1 in H.
  rewrite H by lia. f_equal. lia.
Qed.

(** X20: on a string made of runs of at most six characters, each run
    being made of characters from "_" to "~" and ending with one from
    "?" to "^", decodePolyline returns one point for every two runs.
    The number of a run has the five low bits of its characters, after
    taking 63 off, as its digits in base 32, lowest first; it is halved,
    and complemented when it was odd; the number of the first run and
    that of the second are added to the latitude and to the longitude
    of the point before, and the point is (longitude / 1e5,
    latitude / 1e5). *)
Theorem decodePolyline_wellFormed (pairs : list (list Z * list Z)) (fuel : nat) :
  Forall (fun p => wellFormed (fst p) ∧ wellFormed (snd p) ∧
                   (length (fst p) <= 6)%nat ∧ (length (snd p) <= 6)%nat) pairs ->
  (length pairs <= fuel)%nat ->
  decodePolyline fuel (concat (map (fun p => fst p ++ snd p) pairs)) =
    Some (pointsFrom 0%float 0%float
            (map (fun p => (delta (chunkValue (fst p)), delta (chunkValue (snd p)))) pairs)).
Proof.
  unfold decodePolyline. generalize 0%float at 1 3. generalize 0%float at 1 2.
  intros lng lat Hpairs. revert fuel lat lng.
  induction Hpairs as [|[a b] pairs (Ha & Hb & Hla & Hlb) _ IH]; intros fuel lat lng Hfuel.
  - destruct fuel; reflexivity.
  - destruct fuel as [|fuel]; [simpl in Hfuel; lia|].
    cbn [map concat fst snd] in *.
    rewrite <- !app_assoc.
    destruct a as [|c a]; [destruct Ha|].
    cbn [app decodeLoop].
    change (c :: a ++ b ++ concat (map (fun p => fst p ++ snd p) pairs))
      with ((c :: a) ++ b ++ concat (map (fun p => fst p ++ snd p) pairs)).
    rewrite (readGroups_wellFormed (c :: a) _ Ha Hla).
    rewrite (readGroups_wellFormed b _ Hb Hlb).
    rewrite IH by (simpl in Hfuel; lia). reflexivity.
Qed.

End PolylineProperties.

Lemma decodePolyline_returns_witness :
  ∃ points, Polyline.decodePolyline 2 (Polyline.codeUnits "_p~") = Some points ∧
            2 * length points <= length (Polyline.codeUnits "_p~") + 1.
Proof.
  apply (decodePolyline_returns 2 (Polyline.codeUnits "_p~")). simpl. lia.
Defined.

Lemma decodePolyline_wellFormed_witness :
  let pairs := [(Polyline.codeUnits "_p~iF", Polyline.codeUnits "~ps|U")] in
  Polyline.decodePolyline 1 (concat (map (fun p => fst p ++ snd p) pairs)) =
    Some (Polyline.pointsFrom 0%float 0%float
            (map (fun p => (Polyline.delta (Polyline.chunkValue (fst p)),
                            Polyline.delta (Polyline.chunkValue (snd p)))) pairs)).
Proof.
  intros pairs.
  apply (decodePolyline_wellFormed pairs 1).
  - constructor; [|constructor]. simpl. repeat split; try (vm_compute; discriminate); lia.
  - simpl. lia.
Defined.
